(** * Transport control of the MIDI player (src/MIDIplayer.py)

    A shallow embedding of class [MIDIPlayer]: its attributes as a record,
    its methods as functions in a small state/effect/exception monad, and
    the background thread [_play_worker] both as one loop iteration (the
    "tick") and line by line, so that interleavings of the worker with the
    command thread can be written down and executed.  The file menu
    [select_midi_file] and the command loop of [main] run on a list of
    console inputs.

    The note editor of src/catherine.py and the MIDI processors of
    src/midi_processor_clean.py and src/alternative_midi_mixer.py are
    embedded as functions on the instruments, tracks and messages they
    edit (modules [Editor] and [Mido]).

    Python floats (tempo in beats per minute, positions and clock readings
    in seconds, scale factors) are idealised as rationals [Q]: every
    arithmetic identity below is exact arithmetic, not IEEE rounding,
    and the attributes hold numbers.  The floats that are not numbers
    (the infinities and NaN) are modelled apart, for the two guards
    that compare an argument ([pyfloat], [set_bpm_float],
    [seek_rejects]).  [time.time()] is an input of every method that
    reads the clock. *)

From Stdlib Require Import QArith Qfield Lqa Bool List String Ascii Lia.
Import ListNotations.
Local Open Scope Q_scope.

(** ** Data model *)

(** What the player consumes of a [pretty_midi.PrettyMIDI] object:
    [get_end_time()] and the tempo column [get_tempo_changes()[1]]. *)
Record PrettyMIDI : Type := mkMIDI {
  get_end_time : Q;
  get_tempo_changes : list Q
}.

(** Control state of the thread running [_play_worker].  A constructor
    [Lnnn] says that the thread is about to execute source line nnn; its
    arguments are the thread's local variables that are live there. *)
Inductive worker : Type :=
| L125                                   (* if self.midi_data is None *)
| L128                                   (* tempo_ratio = ...          *)
| L129 (tempo_ratio : Q)                 (* total_duration = ...       *)
| L131 (total_duration : Q)              (* while self.is_playing      *)
| L132 (total_duration : Q)              (* if not self.is_paused      *)
| L134 (total_duration : Q)              (* current_time = ...         *)
| L135 (total_duration current_time : Q) (* self.current_position = .. *)
| L138 (total_duration : Q)              (* if ... >= total_duration   *)
| L140 (total_duration : Q)              (* self.is_playing = False    *)
| L143 (total_duration : Q)              (* time.sleep(0.1)            *)
| Exited.                                (* returned, or died raising  *)

Definition is_alive (w : worker) : bool :=
  match w with Exited => false | _ => true end.

(** The attributes assigned in [__init__]. *)
Record MIDIPlayer : Type := mkPlayer {
  midi_data : option PrettyMIDI;
  original_bpm : Q;
  current_bpm : Q;
  is_playing : bool;
  is_paused : bool;
  play_thread : option worker;
  start_time : Q;
  pause_time : Q;
  current_position : Q;
  current_file_path : option string;
  audio_enabled : bool
}.

(** [__init__]; whether [pygame.mixer.init()] worked is an input. *)
Definition init (audio : bool) : MIDIPlayer :=
  {| midi_data := None; original_bpm := 120; current_bpm := 120;
     is_playing := false; is_paused := false; play_thread := None;
     start_time := 0; pause_time := 0; current_position := 0;
     current_file_path := None; audio_enabled := audio |}.

(** Attribute assignments [self.x = v]. *)
Definition set_midi_data (v : option PrettyMIDI) (s : MIDIPlayer) :=
  mkPlayer v (original_bpm s) (current_bpm s) (is_playing s) (is_paused s)
    (play_thread s) (start_time s) (pause_time s) (current_position s)
    (current_file_path s) (audio_enabled s).
Definition set_original_bpm (v : Q) (s : MIDIPlayer) :=
  mkPlayer (midi_data s) v (current_bpm s) (is_playing s) (is_paused s)
    (play_thread s) (start_time s) (pause_time s) (current_position s)
    (current_file_path s) (audio_enabled s).
Definition set_current_bpm (v : Q) (s : MIDIPlayer) :=
  mkPlayer (midi_data s) (original_bpm s) v (is_playing s) (is_paused s)
    (play_thread s) (start_time s) (pause_time s) (current_position s)
    (current_file_path s) (audio_enabled s).
Definition set_is_playing (v : bool) (s : MIDIPlayer) :=
  mkPlayer (midi_data s) (original_bpm s) (current_bpm s) v (is_paused s)
    (play_thread s) (start_time s) (pause_time s) (current_position s)
    (current_file_path s) (audio_enabled s).
Definition set_is_paused (v : bool) (s : MIDIPlayer) :=
  mkPlayer (midi_data s) (original_bpm s) (current_bpm s) (is_playing s) v
    (play_thread s) (start_time s) (pause_time s) (current_position s)
    (current_file_path s) (audio_enabled s).
Definition set_play_thread (v : option worker) (s : MIDIPlayer) :=
  mkPlayer (midi_data s) (original_bpm s) (current_bpm s) (is_playing s)
    (is_paused s) v (start_time s) (pause_time s) (current_position s)
    (current_file_path s) (audio_enabled s).
Definition set_start_time (v : Q) (s : MIDIPlayer) :=
  mkPlayer (midi_data s) (original_bpm s) (current_bpm s) (is_playing s)
    (is_paused s) (play_thread s) v (pause_time s) (current_position s)
    (current_file_path s) (audio_enabled s).
Definition set_pause_time (v : Q) (s : MIDIPlayer) :=
  mkPlayer (midi_data s) (original_bpm s) (current_bpm s) (is_playing s)
    (is_paused s) (play_thread s) (start_time s) v (current_position s)
    (current_file_path s) (audio_enabled s).
Definition set_current_position (v : Q) (s : MIDIPlayer) :=
  mkPlayer (midi_data s) (original_bpm s) (current_bpm s) (is_playing s)
    (is_paused s) (play_thread s) (start_time s) (pause_time s) v
    (current_file_path s) (audio_enabled s).
Definition set_current_file_path (v : option string) (s : MIDIPlayer) :=
  mkPlayer (midi_data s) (original_bpm s) (current_bpm s) (is_playing s)
    (is_paused s) (play_thread s) (start_time s) (pause_time s)
    (current_position s) v (audio_enabled s).

(** ** Effects

    Calls that leave the player object: the [pygame.mixer.music] commands
    and the thread operations.  Methods return the list of the calls they
    made, in order. *)
Inductive effect : Type :=
| MusicLoad (path : string)
| MusicPlay
| MusicPause
| MusicUnpause
| MusicStop
| ThreadStart
| ThreadJoin (timeout : Q).

Inductive exn : Type :=
| FileNotFoundError
| ParseError          (* whatever [pretty_midi.PrettyMIDI] raises *)
| ValueError
| ZeroDivisionError.

Inductive outcome (A : Type) : Type :=
| Returns (a : A) (s : MIDIPlayer) (fx : list effect)
| Raises (e : exn) (s : MIDIPlayer) (fx : list effect).
Arguments Returns {A} a s fx.
Arguments Raises {A} e s fx.

Definition state_of {A} (o : outcome A) : MIDIPlayer :=
  match o with Returns _ s _ | Raises _ s _ => s end.
Definition effects_of {A} (o : outcome A) : list effect :=
  match o with Returns _ _ fx | Raises _ _ fx => fx end.

Definition M (A : Type) : Type := MIDIPlayer -> outcome A.

Definition ret {A} (a : A) : M A := fun s => Returns a s [].
Definition raise {A} (e : exn) : M A := fun s => Raises e s [].
Definition bind {A B} (m : M A) (k : A -> M B) : M B := fun s =>
  match m s with
  | Returns a s1 fx1 =>
      match k a s1 with
      | Returns b s2 fx2 => Returns b s2 (fx1 ++ fx2)
      | Raises e s2 fx2 => Raises e s2 (fx1 ++ fx2)
      end
  | Raises e s1 fx1 => Raises e s1 fx1
  end.
Definition attr {A} (f : MIDIPlayer -> A) : M A := fun s => Returns (f s) s [].
Definition assign (f : MIDIPlayer -> MIDIPlayer) : M unit :=
  fun s => Returns tt (f s) [].
Definition emit (e : effect) : M unit := fun s => Returns tt s [e].
Definition when (b : bool) (m : M unit) : M unit := if b then m else ret tt.

(** [try: m except Exception as e: h e]: the assignments and calls made
    before the exception stay. *)
Definition catch {A} (m : M A) (h : exn -> M A) : M A := fun s =>
  match m s with
  | Returns a s1 fx1 => Returns a s1 fx1
  | Raises e s1 fx1 =>
      match h e s1 with
      | Returns b s2 fx2 => Returns b s2 (fx1 ++ fx2)
      | Raises e' s2 fx2 => Raises e' s2 (fx1 ++ fx2)
      end
  end.

Declare Scope py_scope.
Delimit Scope py_scope with py.
Notation "x <- m ;; k" := (bind m (fun x => k))
  (at level 61, m at next level, right associativity) : py_scope.
Notation "m ;; k" := (bind m (fun _ => k))
  (at level 61, right associativity) : py_scope.
Local Open Scope py_scope.

(** Comparisons of floats, as booleans. *)
Definition Qlt_bool (x y : Q) : bool := negb (Qle_bool y x).

(** Python truth value of [self.current_file_path] ([None] and the empty
    string are false). *)
Definition truthy_path (p : option string) : bool :=
  match p with Some (String _ _) => true | _ => false end.

(** ** The file system, as [load_midi_file] sees it *)
Inductive file : Type :=
| Missing                      (* os.path.exists is False      *)
| Unreadable                   (* PrettyMIDI(file_path) raises *)
| Parsed (m : PrettyMIDI).

(** How [pygame.mixer.music.load] / [.play] behave inside
    [play_with_pygame]. *)
Inductive backend : Type := Plays | LoadError | PlayError.

(** ** Methods of [MIDIPlayer] *)

(** [load_midi_file]: every exception raised in the body is caught and
    turned into the result [False]; the attributes assigned before the
    exception keep their new values. *)
Definition load_midi_file (disk : string -> file) (file_path : string)
  : M bool :=
  catch
    (match disk file_path with
     | Missing => raise FileNotFoundError
     | Unreadable =>
         assign (set_current_file_path (Some file_path)) ;;
         raise ParseError
     | Parsed m =>
         assign (set_current_file_path (Some file_path)) ;;
         assign (set_midi_data (Some m)) ;;
         match get_tempo_changes m with
         | bpm :: _ => assign (set_original_bpm bpm)
         | [] => assign (set_original_bpm 120)
         end ;;
         bpm <- attr original_bpm ;;
         assign (set_current_bpm bpm) ;;
         ret true
     end)
    (fun _ => ret false).

(** [bpm] is a number; [set_bpm_float] below has the guard on every
    float. *)
Definition set_bpm (bpm : Q) : M unit :=
  if Qle_bool bpm 0 then raise ValueError
  else assign (set_current_bpm bpm).

Definition get_tempo_ratio : M Q :=
  cur <- attr current_bpm ;;
  if Qeq_bool cur 0 then raise ZeroDivisionError
  else (orig <- attr original_bpm ;; ret (orig / cur)).

Definition play_with_pygame (bk : backend) (midi_file_path : string)
  : M unit :=
  audio <- attr audio_enabled ;;
  if negb audio then ret tt
  else match bk with
       | LoadError => emit (MusicLoad midi_file_path)
       | PlayError | Plays =>
           emit (MusicLoad midi_file_path) ;; emit MusicPlay
       end.

Definition stop_pygame : M unit :=
  audio <- attr audio_enabled ;;
  when audio (emit MusicStop).

Definition path_string (p : option string) : string :=
  match p with Some f => f | None => EmptyString end.

Definition play (bk : backend) (now start : Q) : M bool :=
  md <- attr midi_data ;;
  match md with
  | None => ret false
  | Some _ =>
      playing <- attr is_playing ;;
      if playing then ret false
      else
        assign (set_is_playing true) ;;
        assign (set_is_paused false) ;;
        assign (set_current_position start) ;;
        assign (set_start_time (now - start)) ;;
        path <- attr current_file_path ;;
        audio <- attr audio_enabled ;;
        when (truthy_path path && audio)
             (play_with_pygame bk (path_string path)) ;;
        assign (set_play_thread (Some L125)) ;;
        emit ThreadStart ;;
        ret true
  end.

Definition pause (now : Q) : M bool :=
  playing <- attr is_playing ;;
  paused <- attr is_paused ;;
  if playing && negb paused then
    assign (set_is_paused true) ;;
    assign (set_pause_time now) ;;
    audio <- attr audio_enabled ;;
    when audio (emit MusicPause) ;;
    ret true
  else ret false.

Definition resume (now : Q) : M bool :=
  playing <- attr is_playing ;;
  paused <- attr is_paused ;;
  if playing && paused then
    pt <- attr pause_time ;;
    let pause_duration := now - pt in
    st <- attr start_time ;;
    assign (set_start_time (st + pause_duration)) ;;
    assign (set_is_paused false) ;;
    audio <- attr audio_enabled ;;
    when audio (emit MusicUnpause) ;;
    ret true
  else ret false.

(** [self.play_thread.join(timeout=1)] in a [stop] that runs as one
    step, the worker standing between two passes of its loop: the
    worker tests [is_playing] every 0.1 s, [stop] has just cleared it,
    so the worker has left its loop when the join returns.  A worker
    that is inside a pass when [stop] is called finishes that pass
    during the join; this is what [ctl_step] and [worker_step] below
    describe, line by line. *)
Definition join_play_thread : M unit :=
  th <- attr play_thread ;;
  match th with
  | Some w =>
      when (is_alive w)
           (emit (ThreadJoin 1) ;; assign (set_play_thread (Some Exited)))
  | None => ret tt
  end.

Definition stop : M bool :=
  playing <- attr is_playing ;;
  if playing then
    assign (set_is_playing false) ;;
    assign (set_is_paused false) ;;
    assign (set_current_position 0) ;;
    stop_pygame ;;
    join_play_thread ;;
    ret true
  else ret false.

(** [os.path.basename] for POSIX paths. *)
Fixpoint has_sep (p : string) : bool :=
  match p with
  | EmptyString => false
  | String c r => Ascii.eqb c "/" || has_sep r
  end.
Fixpoint basename (p : string) : string :=
  match p with
  | EmptyString => EmptyString
  | String c r =>
      if has_sep r then basename r
      else if Ascii.eqb c "/" then r else p
  end.

(** The dictionary built by [get_status]. *)
Record status : Type := mkStatus {
  st_is_playing : bool;
  st_is_paused : bool;
  st_current_position : Q;
  st_current_bpm : Q;
  st_original_bpm : Q;
  st_audio_enabled : bool;
  st_duration : Q;
  st_file_loaded : bool;
  st_file_name : option string
}.

Definition get_status : M status :=
  s <- attr (fun s => s) ;;
  let mk := mkStatus (is_playing s) (is_paused s) (current_position s)
              (current_bpm s) (original_bpm s) (audio_enabled s) in
  match midi_data s with
  | Some m =>
      ratio <- get_tempo_ratio ;;
      ret (mk (get_end_time m * ratio) true
              (Some (if truthy_path (current_file_path s)
                     then basename (path_string (current_file_path s))
                     else "Unknown"%string)))
  | None => ret (mk 0 false None)
  end.

(** [position] is a number; [seek_rejects] below has the test of line
    215 on every float. *)
Definition seek (bk : backend) (now position : Q) : M bool :=
  md <- attr midi_data ;;
  match md with
  | None => ret false
  | Some m =>
      ratio <- get_tempo_ratio ;;
      let max_duration := get_end_time m * ratio in
      if Qlt_bool position 0 || Qlt_bool max_duration position then ret false
      else
        was_playing <- attr is_playing ;;
        when was_playing (stop ;; ret tt) ;;
        (if was_playing then play bk now position ;; ret tt
         else assign (set_current_position position)) ;;
        ret true
  end.

(** ** The worker thread [_play_worker] *)

Definition goto (w : worker) : MIDIPlayer -> MIDIPlayer :=
  set_play_thread (Some w).

(** One source line of the worker; [now] is the clock (read on line 134
    only).  An exception in the thread ends the thread. *)
Definition worker_step (now : Q) (s : MIDIPlayer) : MIDIPlayer :=
  match play_thread s with
  | None => s
  | Some w =>
      match w with
      | L125 =>
          match midi_data s with
          | None => goto Exited s
          | Some _ => goto L128 s
          end
      | L128 =>
          match get_tempo_ratio s with
          | Returns r _ _ => goto (L129 r) s
          | Raises _ _ _ => goto Exited s
          end
      | L129 r =>
          match midi_data s with
          | Some m => goto (L131 (get_end_time m * r)) s
          | None => goto Exited s
          end
      | L131 t => if is_playing s then goto (L132 t) s else goto Exited s
      | L132 t =>
          if negb (is_paused s) then goto (L134 t) s else goto (L143 t) s
      | L134 t => goto (L135 t (now - start_time s)) s
      | L135 t c => goto (L138 t) (set_current_position c s)
      | L138 t =>
          if Qle_bool t (current_position s) then goto (L140 t) s
          else goto (L143 t) s
      | L140 t => goto Exited (set_is_playing false s)
      | L143 t => goto (L131 t) s
      | Exited => s
      end
  end.

Fixpoint worker_steps (n : nat) (now : Q) (s : MIDIPlayer) : MIDIPlayer :=
  match n with
  | O => s
  | S n' => worker_steps n' now (worker_step now s)
  end.

(** Lines 125-129 run without interruption: the thread captures
    [total_duration] and reaches the head of its loop. *)
Definition play_worker_begin : M unit :=
  th <- attr play_thread ;;
  match th with
  | Some L125 =>
      md <- attr midi_data ;;
      match md with
      | None => assign (goto Exited)
      | Some m =>
          catch
            (tempo_ratio <- get_tempo_ratio ;;
             assign (goto (L131 (get_end_time m * tempo_ratio))))
            (fun _ => assign (goto Exited))
      end
  | _ => ret tt
  end.

(** One pass of the [while] loop, lines 131-143, run without
    interruption: the tracker tick. *)
Definition play_worker_tick (now : Q) : M unit :=
  th <- attr play_thread ;;
  match th with
  | Some (L131 total_duration) =>
      playing <- attr is_playing ;;
      if playing then
        paused <- attr is_paused ;;
        if negb paused then
          st <- attr start_time ;;
          let current_time := now - st in
          assign (set_current_position current_time) ;;
          pos <- attr current_position ;;
          if Qle_bool total_duration pos then
            assign (set_is_playing false) ;;
            assign (goto Exited)
          else ret tt
        else ret tt
      else assign (goto Exited)
  | _ => ret tt
  end.

(** ** Command thread and worker thread, line by line

    The player takes no lock, so the interpreter may switch between the
    command thread and the worker between any two lines.  A configuration
    holds the shared object, the line the command thread is at inside
    [pause], [resume] or [stop], and the calls made so far.  [play] and
    [set_bpm] are taken in one step: no worker is alive while [play]
    assigns, and [set_bpm] assigns once. *)
Inductive ctl_pc : Type :=
| Idle                        (* between two commands                       *)
| P148 | P149 | P150          (* pause: is_paused, pause_time, mixer pause  *)
| R160                        (* resume: pause_duration = ...               *)
| R161 (pause_duration : Q)   (* resume: self.start_time += pause_duration  *)
| R162 | R163                 (* resume: is_paused, mixer unpause           *)
| S172 | S173 | S174          (* stop: is_playing, is_paused, position      *)
| S177 | S179                 (* stop: stop_pygame, is_alive test           *)
| S180.                       (* stop: inside join                          *)

Record config : Type := mkConfig {
  self : MIDIPlayer;
  ctl : ctl_pc;
  log : list effect
}.

Inductive command : Type :=
| CallPause
| CallResume
| CallStop
| CallPlay (bk : backend) (now start : Q)
| CallSetBpm (bpm : Q).

Inductive action : Type :=
| Call (c : command)   (* the command thread enters a method          *)
| Ctl (now : Q)        (* the command thread executes its next line   *)
| Wrk (now : Q).       (* the worker thread executes its next line    *)

Definition worker_alive (s : MIDIPlayer) : bool :=
  match play_thread s with Some w => is_alive w | None => false end.

(** Entering a method: the guard on its first line. *)
Definition call (cmd : command) (c : config) : config :=
  let s := self c in
  match cmd with
  | CallPause =>
      if is_playing s && negb (is_paused s)
      then mkConfig s P148 (log c) else c
  | CallResume =>
      if is_playing s && is_paused s
      then mkConfig s R160 (log c) else c
  | CallStop =>
      if is_playing s then mkConfig s S172 (log c) else c
  | CallPlay bk now start =>
      let o := play bk now start s in
      mkConfig (state_of o) Idle (log c ++ effects_of o)
  | CallSetBpm bpm =>
      let o := set_bpm bpm s in
      mkConfig (state_of o) Idle (log c ++ effects_of o)
  end.

(** The next line of the method the command thread is in.  On line 180
    the command thread waits in [join]: it goes on once the worker has
    exited (a return of [join] on its timeout, the worker still alive, is
    left out of the model). *)
Definition ctl_step (now : Q) (c : config) : option config :=
  let s := self c in
  match ctl c with
  | Idle => None
  | P148 => Some (mkConfig (set_is_paused true s) P149 (log c))
  | P149 => Some (mkConfig (set_pause_time now s) P150 (log c))
  | P150 =>
      Some (mkConfig s Idle
              (log c ++ if audio_enabled s then [MusicPause] else []))
  | R160 => Some (mkConfig s (R161 (now - pause_time s)) (log c))
  | R161 pause_duration =>
      Some (mkConfig (set_start_time (start_time s + pause_duration) s)
              R162 (log c))
  | R162 => Some (mkConfig (set_is_paused false s) R163 (log c))
  | R163 =>
      Some (mkConfig s Idle
              (log c ++ if audio_enabled s then [MusicUnpause] else []))
  | S172 => Some (mkConfig (set_is_playing false s) S173 (log c))
  | S173 => Some (mkConfig (set_is_paused false s) S174 (log c))
  | S174 => Some (mkConfig (set_current_position 0 s) S177 (log c))
  | S177 =>
      Some (mkConfig s S179
              (log c ++ if audio_enabled s then [MusicStop] else []))
  | S179 =>
      if worker_alive s
      then Some (mkConfig s S180 (log c ++ [ThreadJoin 1]))
      else Some (mkConfig s Idle (log c))
  | S180 =>
      if worker_alive s then None else Some (mkConfig s Idle (log c))
  end.

Definition step (a : action) (c : config) : option config :=
  match a with
  | Call cmd =>
      match ctl c with Idle => Some (call cmd c) | _ => None end
  | Ctl now => ctl_step now c
  | Wrk now =>
      if worker_alive (self c)
      then Some (mkConfig (worker_step now (self c)) (ctl c) (log c))
      else None
  end.

Fixpoint run (sched : list action) (c : config) : option config :=
  match sched with
  | [] => Some c
  | a :: rest =>
      match step a c with
      | Some c' => run rest c'
      | None => None
      end
  end.

(** The command thread is between the first and the last assignment of a
    transition: some attribute already has its new value and another one
    still has the old one. *)
Definition half_applied (pc : ctl_pc) : bool :=
  match pc with
  | P149 | R162 | S173 | S174 => true
  | _ => false
  end.

(** ** Well-formed inputs and states *)

(** A source whose duration is not negative and whose reported tempo, if
    any, is positive. *)
Definition midi_ok (m : PrettyMIDI) : Prop :=
  0 <= get_end_time m /\
  match get_tempo_changes m with bpm :: _ => 0 < bpm | [] => True end.

Definition disk_ok (disk : string -> file) : Prop :=
  forall p m, disk p = Parsed m -> midi_ok m.

Definition tempo_ok (s : MIDIPlayer) : Prop :=
  0 < original_bpm s /\ 0 < current_bpm s.

Definition paused_implies_playing (s : MIDIPlayer) : Prop :=
  is_paused s = true -> is_playing s = true.

(** The operations of the state machine, each run to completion. *)
Inductive operation : Type :=
| OpLoad (disk : string -> file) (file_path : string)
| OpSetBpm (bpm : Q)
| OpPlay (bk : backend) (now start : Q)
| OpPause (now : Q)
| OpResume (now : Q)
| OpStop
| OpSeek (bk : backend) (now position : Q)
| OpStatus
| OpBegin
| OpTick (now : Q).

Definition perform (op : operation) (s : MIDIPlayer) : MIDIPlayer :=
  match op with
  | OpLoad disk p => state_of (load_midi_file disk p s)
  | OpSetBpm bpm => state_of (set_bpm bpm s)
  | OpPlay bk now start => state_of (play bk now start s)
  | OpPause now => state_of (pause now s)
  | OpResume now => state_of (resume now s)
  | OpStop => state_of (stop s)
  | OpSeek bk now pos => state_of (seek bk now pos s)
  | OpStatus => state_of (get_status s)
  | OpBegin => state_of (play_worker_begin s)
  | OpTick now => state_of (play_worker_tick now s)
  end.

Definition op_ok (op : operation) : Prop :=
  match op with OpLoad disk _ => disk_ok disk | _ => True end.

(** States reached from a fresh player by whole operations. *)
Inductive reachable : MIDIPlayer -> Prop :=
| reach_init : forall audio, reachable (init audio)
| reach_step : forall op s,
    reachable s -> op_ok op -> reachable (perform op s).

(** Configurations reached from a fresh player by interleaved lines. *)
Definition initial (audio : bool) (m : PrettyMIDI) (path : string) : config :=
  mkConfig
    (state_of (load_midi_file (fun _ => Parsed m) path (init audio)))
    Idle [].

Definition conc_reachable (c : config) : Prop :=
  exists audio m path sched,
    midi_ok m /\ run sched (initial audio m path) = Some c.

(** The tempo a source reports, with the default of [load_midi_file]. *)
Definition base_tempo (m : PrettyMIDI) : Q :=
  match get_tempo_changes m with bpm :: _ => bpm | [] => 120 end.

(** The duration [seek] and [get_status] compute: the source's duration
    times the tempo ratio. *)
Definition scaled_duration (m : PrettyMIDI) (s : MIDIPlayer) : Q :=
  get_end_time m * (original_bpm s / current_bpm s).

(** The attributes a tick never assigns. *)
Definition same_but_position_and_playing (s s' : MIDIPlayer) : Prop :=
  midi_data s' = midi_data s /\
  original_bpm s' = original_bpm s /\
  current_bpm s' = current_bpm s /\
  is_paused s' = is_paused s /\
  start_time s' = start_time s /\
  pause_time s' = pause_time s /\
  current_file_path s' = current_file_path s /\
  audio_enabled s' = audio_enabled s.

(** ** Invariants of the states reached by whole operations *)

Record inv (s : MIDIPlayer) : Prop := mkInv {
  inv_tempo : tempo_ok s;
  inv_paused : paused_implies_playing s;
  inv_source : is_playing s = true -> midi_data s <> None;
  inv_thread : is_playing s = true -> worker_alive s = true;
  inv_midi : forall m, midi_data s = Some m -> midi_ok m
}.

(** What a lock around the state record would give: while the command
    thread is between two assignments of a transition, the worker cannot
    execute a line. *)
Definition mutually_exclusive : Prop :=
  forall (c : config) (now : Q),
    conc_reachable c -> half_applied (ctl c) = true ->
    step (Wrk now) c = None.

(** ** Sample inputs *)

Definition song : PrettyMIDI := mkMIDI 10 [120].
Definition song_disk (_ : string) : file := Parsed song.

(** A player that has loaded [song] and is stopped. *)
Definition loaded : MIDIPlayer :=
  state_of (load_midi_file song_disk "song.mid" (init true)).

(** [song] started at clock 0 from position 0, worker at its loop head. *)
Definition started : MIDIPlayer :=
  state_of (play_worker_begin (state_of (play Plays 0 0 loaded))).

(** ... and paused at clock 3. *)
Definition paused_at_3 : MIDIPlayer := state_of (pause 3 started).

(** [song] playing, three seconds in. *)
Definition playing_at_3 : MIDIPlayer :=
  state_of (play_worker_tick 3 started).

(** [song] is played from clock 0.  At clock 10 the worker passes its
    [is_paused] test and finds the end of the track reached; before it
    executes line 140, the command thread runs [pause] to completion. *)
Definition race_schedule : list action :=
  [ Call (CallPlay Plays 0 0);
    Wrk 0; Wrk 0; Wrk 0;              (* lines 125, 128, 129           *)
    Wrk 10; Wrk 10; Wrk 10; Wrk 10;   (* lines 131, 132, 134, 135      *)
    Wrk 10;                           (* line 138: end reached         *)
    Call CallPause; Ctl 10; Ctl 10; Ctl 10;
    Wrk 10 ].                         (* line 140: is_playing = False  *)

(** [song] is played from clock 0 and paused at clock 3; at clock 8 the
    command thread is inside [resume], past line 161 and before line
    162. *)
Definition torn_schedule : list action :=
  [ Call (CallPlay Plays 0 0);
    Wrk 0; Wrk 0; Wrk 0;
    Call CallPause; Ctl 3; Ctl 3; Ctl 3;
    Call CallResume; Ctl 8; Ctl 8 ].

(** ** Sequences of calls *)

(** [pause] at [fst c] followed by [resume] at [snd c], for each [c] in
    turn. *)
Definition pause_resume (cycles : list (Q * Q)) (s : MIDIPlayer)
  : MIDIPlayer :=
  fold_left
    (fun s c => state_of (resume (snd c) (state_of (pause (fst c) s))))
    cycles s.

(** The time spent paused in these cycles. *)
Definition paused_total (cycles : list (Q * Q)) : Q :=
  fold_right (fun c acc => (snd c - fst c) + acc) 0 cycles.

(** Ticks of the worker at the given clock readings, one after the
    other. *)
Definition ticks (clocks : list Q) (s : MIDIPlayer) : MIDIPlayer :=
  fold_left (fun s now => state_of (play_worker_tick now s)) clocks s.

(** The calls an operation makes. *)
Definition calls_of (op : operation) (s : MIDIPlayer) : list effect :=
  match op with
  | OpLoad disk p => effects_of (load_midi_file disk p s)
  | OpSetBpm bpm => effects_of (set_bpm bpm s)
  | OpPlay bk now start => effects_of (play bk now start s)
  | OpPause now => effects_of (pause now s)
  | OpResume now => effects_of (resume now s)
  | OpStop => effects_of (stop s)
  | OpSeek bk now pos => effects_of (seek bk now pos s)
  | OpStatus => effects_of (get_status s)
  | OpBegin => effects_of (play_worker_begin s)
  | OpTick now => effects_of (play_worker_tick now s)
  end.

(** The calls a sequence of operations makes, in order. *)
Fixpoint calls_of_all (ops : list operation) (s : MIDIPlayer)
  : list effect :=
  match ops with
  | [] => []
  | op :: rest => calls_of op s ++ calls_of_all rest (perform op s)
  end.

Definition is_load (op : operation) : bool :=
  match op with OpLoad _ _ => true | _ => false end.

Definition is_set_bpm (op : operation) : bool :=
  match op with OpSetBpm _ => true | _ => false end.

(** ** [stop] and the worker, line by line *)

(** A line of one of the two threads: no method is entered. *)
Definition is_line (a : action) : bool :=
  match a with Call _ => false | Ctl _ | Wrk _ => true end.

(** The worker has passed its loop test and has not yet stored the
    position of this pass (lines 132-135). *)
Definition reading_in_hand (w : worker) : bool :=
  match w with
  | L132 _ | L134 _ | L135 _ _ => true
  | _ => false
  end.

(** What holds of a configuration while the command thread is inside
    [stop], and once [stop] has returned. *)
Definition stopping (c : config) : Prop :=
  match ctl c with
  | S172 => True
  | S173 => is_playing (self c) = false
  | S174 | S177 | S179 | S180 =>
      is_playing (self c) = false /\ is_paused (self c) = false
  | Idle =>
      is_playing (self c) = false /\ is_paused (self c) = false /\
      worker_alive (self c) = false
  | _ => False
  end.

(** [song] is played from clock 0.  At clock 5 the worker reads the
    clock on line 134; before it stores the reading on line 135, the
    command thread runs [stop] from line 171 into its [join]; the
    worker then finishes its pass and leaves its loop, and [join]
    returns. *)
Definition stale_schedule : list action :=
  [ Call (CallPlay Plays 0 0);
    Wrk 0; Wrk 0; Wrk 0;                  (* lines 125, 128, 129      *)
    Wrk 5; Wrk 5; Wrk 5;                  (* lines 131, 132, 134      *)
    Call CallStop;
    Ctl 5; Ctl 5; Ctl 5; Ctl 5; Ctl 5;    (* lines 172-179, into join *)
    Wrk 5; Wrk 5; Wrk 5; Wrk 5;           (* lines 135, 138, 143, 131 *)
    Ctl 5 ].                              (* join returns             *)

(** ** Floats that are not numbers

    The attributes of the player are modelled as rationals.  A Python
    float can also be an infinity or NaN, and the [float(...)] of line
    317 returns them on 'inf' and 'nan'.  The guards of lines 65 and 215
    are comparisons, and a comparison with NaN is false. *)
Inductive pyfloat : Type :=
| Finite (q : Q)
| PosInf
| NegInf
| NaN.

(** [x <= y]. *)
Definition float_le (x y : pyfloat) : bool :=
  match x, y with
  | NaN, _ | _, NaN => false
  | NegInf, _ | _, PosInf => true
  | PosInf, _ | _, NegInf => false
  | Finite a, Finite b => Qle_bool a b
  end.

(** [x < y]. *)
Definition float_lt (x y : pyfloat) : bool :=
  match x, y with
  | NaN, _ | _, NaN => false
  | PosInf, _ | _, NegInf => false
  | NegInf, _ | _, PosInf => true
  | Finite a, Finite b => Qlt_bool a b
  end.

(** Lines 65-67 of [set_bpm] on any float: the exception raised, or the
    value assigned to [current_bpm]. *)
Definition set_bpm_float (bpm : pyfloat) : exn + pyfloat :=
  if float_le bpm (Finite 0) then inl ValueError else inr bpm.

(** The test of line 215 of [seek] on any floats. *)
Definition seek_rejects (position max_duration : pyfloat) : bool :=
  float_lt position (Finite 0) || float_lt max_duration position.

(** ** Subsequences

    A list comprehension with a condition keeps elements in their
    order: its result is a subsequence of the list it runs over. *)
Inductive subseq {A : Type} : list A -> list A -> Prop :=
| subseq_nil : subseq [] []
| subseq_skip : forall x s l, subseq s l -> subseq s (x :: l)
| subseq_take : forall x s l, subseq s l -> subseq (x :: s) (x :: l).

(** [s] is the longest subsequence of [l] whose elements all satisfy
    [p]: every such subsequence is one of [s].  There is one such [s]
    for each [l]: the elements of [l] that satisfy [p], all of them, in
    their order. *)
Definition longest_within {A : Type} (p : A -> bool) (s l : list A) : Prop :=
  subseq s l /\
  Forall (fun x => p x = true) s /\
  forall s', subseq s' l -> Forall (fun x => p x = true) s' -> subseq s' s.

(** ** Strings of the command line

    A string is the sequence of its code points, each below 256.
    [isdigit], [int], [lower], [strip], [endswith] and [in] are the
    Python operations on such strings. *)

(** A decimal digit, '0' to '9'. *)
Definition is_digit (c : ascii) : bool :=
  Nat.leb 48 (nat_of_ascii c) && Nat.leb (nat_of_ascii c) 57.

Fixpoint all_digits (s : string) : bool :=
  match s with
  | EmptyString => true
  | String c r => is_digit c && all_digits r
  end.

(** A non-empty string of decimal digits: [s.isdigit()] is true and
    [int(s)] returns. *)
Definition isdigit (s : string) : bool :=
  match s with
  | EmptyString => false
  | String _ _ => all_digits s
  end.

(** What [str.isdigit] takes for a digit: besides the decimal digits,
    the superscripts two, three and one (code points 178, 179, 185). *)
Definition is_digit_like (c : ascii) : bool :=
  is_digit c ||
  Nat.eqb (nat_of_ascii c) 178 || Nat.eqb (nat_of_ascii c) 179 ||
  Nat.eqb (nat_of_ascii c) 185.

Fixpoint all_digit_like (s : string) : bool :=
  match s with
  | EmptyString => true
  | String c r => is_digit_like c && all_digit_like r
  end.

(** [s.isdigit()]: false on the empty string. *)
Definition str_isdigit (s : string) : bool :=
  match s with
  | EmptyString => false
  | String _ _ => all_digit_like s
  end.

Fixpoint int_from (acc : Z) (s : string) : Z :=
  match s with
  | EmptyString => acc
  | String c r => int_from (10 * acc + (Z.of_nat (nat_of_ascii c) - 48)) r
  end.

(** [int(s)] for a string of decimal digits; on a superscript digit
    [int] raises [ValueError]. *)
Definition int (s : string) : Z := int_from 0 s.

(** [c.lower()]: the capital letters among the code points below 256
    are 65..90 and 192..222 without 215 (the multiplication sign). *)
Definition lower_char (c : ascii) : ascii :=
  let n := nat_of_ascii c in
  if (Nat.leb 65 n && Nat.leb n 90) ||
     (Nat.leb 192 n && Nat.leb n 222 && negb (Nat.eqb n 215))
  then ascii_of_nat (n + 32)
  else c.

Fixpoint lower (s : string) : string :=
  match s with
  | EmptyString => EmptyString
  | String c r => String (lower_char c) (lower r)
  end.

(** [c.isspace()]: tab to carriage return, the four separators 28..31,
    the space, next line (133) and the no-break space (160). *)
Definition is_space (c : ascii) : bool :=
  let n := nat_of_ascii c in
  (Nat.leb 9 n && Nat.leb n 13) || (Nat.leb 28 n && Nat.leb n 32) ||
  Nat.eqb n 133 || Nat.eqb n 160.

Fixpoint lstrip (s : string) : string :=
  match s with
  | String c r => if is_space c then lstrip r else s
  | EmptyString => EmptyString
  end.

Fixpoint rstrip (s : string) : string :=
  match s with
  | EmptyString => EmptyString
  | String c r =>
      match rstrip r with
      | EmptyString => if is_space c then EmptyString else String c EmptyString
      | String _ _ as r' => String c r'
      end
  end.

(** [s.strip()]. *)
Definition strip (s : string) : string := rstrip (lstrip s).

Fixpoint startswith (s p : string) : bool :=
  match p, s with
  | EmptyString, _ => true
  | String a p', String b s' => Ascii.eqb a b && startswith s' p'
  | String _ _, EmptyString => false
  end.

Fixpoint endswith (s suffix : string) : bool :=
  String.eqb s suffix ||
  match s with
  | EmptyString => false
  | String _ r => endswith r suffix
  end.

(** [needle in hay] on strings. *)
Fixpoint contains (needle hay : string) : bool :=
  startswith hay needle ||
  match hay with
  | EmptyString => false
  | String _ r => contains needle r
  end.

(** ** [select_midi_file] *)

(** What the console gives to the next [input()]: a line, read at clock
    [now] while the audio backend behaves as [bk]; or a keyboard
    interrupt.  The file menu strips the line itself (line 247); the
    command loop is given the line as line 300 has it after [strip()].
    [Pass now] is not an input: it says that the worker thread runs
    once (its start, or one tick at clock [now]) before the next line
    is read.  When the list is exhausted the standard input is at its
    end and [input()] raises [EOFError]. *)
Inductive console : Type :=
| Typed (line : string) (now : Q) (bk : backend)
| CtrlC
| Pass (now : Q).

(** The files of the directory listing that the menu shows. *)
Definition midi_files_of (listing : list string) : list string :=
  filter (fun f => endswith f ".mid" || endswith f ".midi") listing.

(** One pass of the [while True] loop on the line [choice]. *)
Inductive picked : Type :=
| Picked (f : string)     (* the function returns this file *)
| AskAgain                (* the loop goes on               *)
| PickRaises (e : exn).   (* [int(choice)] raises           *)

(** Line 250 tests [choice.isdigit()]; line 251 converts with [int],
    which raises [ValueError] unless every digit is a decimal one.  The
    partial match of lines 262-269 also runs after a number that is out
    of range. *)
Definition pick (midi_files : list string) (choice : string) : picked :=
  let by_name :=
    match filter (fun f => contains (lower choice) (lower f)) midi_files with
    | [f] => Picked f
    | _ => AskAgain
    end in
  if str_isdigit choice then
    if isdigit choice then
      let index := (int choice - 1)%Z in
      if ((0 <=? index) && (index <? Z.of_nat (List.length midi_files)))%Z
      then match nth_error midi_files (Z.to_nat index) with
           | Some f => Picked f
           | None => AskAgain
           end
      else by_name
    else PickRaises ValueError
  else if existsb (String.eqb choice) midi_files then Picked choice
  else by_name.

Inductive selection : Type :=
| Chosen (f : string)     (* the function returns this file   *)
| NoFile                  (* the function returns None        *)
| EndOfInput              (* [input()] raises [EOFError]      *)
| Escapes (e : exn).      (* an exception leaves the function *)

(** Line 247 strips the line that was typed; the [try] of line 246
    catches [KeyboardInterrupt] only. *)
Fixpoint choose (midi_files : list string) (inputs : list console)
  : selection * list console :=
  match inputs with
  | [] => (EndOfInput, [])
  | Pass _ :: rest => choose midi_files rest
  | CtrlC :: rest => (NoFile, rest)
  | Typed line _ _ :: rest =>
      match pick midi_files (strip line) with
      | Picked f => (Chosen f, rest)
      | AskAgain => choose midi_files rest
      | PickRaises e => (Escapes e, rest)
      end
  end.

(** The result, and the input left for the caller. *)
Definition select_midi_file (listing : list string) (inputs : list console)
  : selection * list console :=
  match midi_files_of listing with
  | [] => (NoFile, inputs)
  | midi_files => choose midi_files inputs
  end.

(** ** [main]: the command loop *)

(** What [main] reads from outside the player. *)
Record environment : Type := mkEnv {
  env_listing : list string;        (* os.listdir('.')                   *)
  env_disk : string -> file;        (* the files, as load_midi_file sees *)
  env_float : string -> option Q    (* float(command.split()[1]); None
                                       when that raises IndexError or
                                       ValueError                        *)
}.

(** How [main] ends. *)
Inductive exit : Type :=
| Quit             (* 'q' or a keyboard interrupt in the loop  *)
| NoSelection      (* no file selected at the start            *)
| LoadFailed       (* the selected file did not load           *)
| EndOfFile        (* [input()] raised [EOFError]              *)
| Uncaught (e : exn).

Record run_of_main : Type := mkRun {
  final : MIDIPlayer;
  calls : list effect;
  how : exit
}.

(** The worker thread runs once: lines 125-129 if it has just been
    started, one pass of its loop otherwise. *)
Definition worker_pass (now : Q) : M unit :=
  th <- attr play_thread ;;
  match th with
  | Some L125 => play_worker_begin
  | _ => play_worker_tick now
  end.

(** Command 'p'. *)
Definition toggle (bk : backend) (now : Q) : M unit :=
  playing <- attr is_playing ;;
  if playing then
    paused <- attr is_paused ;;
    if paused then resume now ;; ret tt
    else pause now ;; ret tt
  else play bk now 0 ;; ret tt.

(** Command 'b <bpm>': [IndexError] and [ValueError] are caught. *)
Definition bpm_command (env : environment) (command : string) : M unit :=
  match env_float env command with
  | None => ret tt
  | Some bpm =>
      catch (set_bpm bpm)
            (fun e => match e with ValueError => ret tt | _ => raise e end)
  end.

(** Goes on with [k] after a command, or ends on its exception. *)
Definition after {A} (o : outcome A) (fx : list effect)
           (k : MIDIPlayer -> list effect -> run_of_main) : run_of_main :=
  match o with
  | Returns _ s' fx' => k s' (fx ++ fx')
  | Raises e s' fx' => mkRun s' (fx ++ fx') (Uncaught e)
  end.

(** Where the loop is: reading a command, or inside the
    [select_midi_file] of command 'f'. *)
Inductive mode : Type := Commands | Reselect.

(** The [while True] loop of [main], on the input that is left.  In
    [Reselect] the player has just been stopped, its worker is not
    alive, and a [Pass] changes nothing. *)
Fixpoint command_loop (env : environment) (md : mode)
         (inputs : list console) (s : MIDIPlayer) (fx : list effect)
  : run_of_main :=
  match inputs with
  | [] => mkRun s fx EndOfFile
  | Pass now :: rest =>
      match md with
      | Commands =>
          let o := worker_pass now s in
          command_loop env Commands rest (state_of o) (fx ++ effects_of o)
      | Reselect => command_loop env Reselect rest s fx
      end
  | CtrlC :: rest =>
      match md with
      | Commands => after (stop s) fx (fun s' fx' => mkRun s' fx' Quit)
      | Reselect => command_loop env Commands rest s fx
      end
  | Typed line now bk :: rest =>
      match md with
      | Reselect =>
          match pick (midi_files_of (env_listing env)) (strip line) with
          | Picked EmptyString => command_loop env Commands rest s fx
          | Picked f =>
              after (load_midi_file (env_disk env) f s) fx
                    (command_loop env Commands rest)
          | AskAgain => command_loop env Reselect rest s fx
          | PickRaises e => mkRun s fx (Uncaught e)
          end
      | Commands =>
          let command := lower line in
          if String.eqb command "q" then
            after (stop s) fx (fun s' fx' => mkRun s' fx' Quit)
          else if String.eqb command "p" then
            after (toggle bk now s) fx (command_loop env Commands rest)
          else if String.eqb command "s" then
            after (stop s) fx (command_loop env Commands rest)
          else if startswith command "b " then
            after (bpm_command env command s) fx
                  (command_loop env Commands rest)
          else if String.eqb command "t" then
            after (get_status s) fx (command_loop env Commands rest)
          else if String.eqb command "f" then
            after (stop s) fx
                  (match midi_files_of (env_listing env) with
                   | [] => command_loop env Commands rest
                   | _ => command_loop env Reselect rest
                   end)
          else command_loop env Commands rest s fx
      end
  end.

(** [main]: a fresh player, the first selection, the load, the loop. *)
Definition main (env : environment) (audio : bool) (inputs : list console)
  : run_of_main :=
  match select_midi_file (env_listing env) inputs with
  | (Chosen EmptyString, _) | (NoFile, _) => mkRun (init audio) [] NoSelection
  | (EndOfInput, _) => mkRun (init audio) [] EndOfFile
  | (Escapes e, _) => mkRun (init audio) [] (Uncaught e)
  | (Chosen f, rest) =>
      match load_midi_file (env_disk env) f (init audio) with
      | Returns true s fx => command_loop env Commands rest s fx
      | Returns false s fx => mkRun s fx LoadFailed
      | Raises e s fx => mkRun s fx (Uncaught e)
      end
  end.

(** Sample directory listings. *)
Definition no_midi_listing : list string :=
  ["notes.txt"%string; "readme"%string].
Definition menu_listing : list string :=
  ["a.mid"%string; "x.txt"%string; "b.midi"%string; "aa.mid"%string].
Definition single_listing : list string :=
  ["x.txt"%string; "only.mid"%string].

(** A worker that is alive belongs to a player that is playing. *)
Definition alive_implies_playing (s : MIDIPlayer) : Prop :=
  worker_alive s = true -> is_playing s = true.

(** What holds of the player whenever the loop of [main] reads a
    command. *)
Definition loop_inv (s : MIDIPlayer) : Prop :=
  inv s /\ alive_implies_playing s /\ midi_data s <> None.

(** The superscript two, code point 178. *)
Definition superscript_two : string :=
  String (ascii_of_nat 178) EmptyString.

Definition sample_env : environment :=
  mkEnv single_listing song_disk
        (fun command => if String.eqb command "b 60" then Some 60
                        else if String.eqb command "b -5" then Some (-5)
                        else None).

(** * The note editor (src/catherine.py)

    What [MidiEditor] uses of [pretty_midi]: a note has a pitch (the
    other attributes ride along), an instrument a program number, the
    drum flag and its notes; [self.pm.instruments] is a list. *)
Module Editor.

Record Note : Type := mkNote {
  pitch : Z;
  velocity : Z;
  note_start : Q;
  note_end : Q
}.

Record Instrument : Type := mkInstrument {
  program : Z;
  is_drum : bool;
  notes : list Note
}.

Definition set_notes (v : list Note) (inst : Instrument) : Instrument :=
  mkInstrument (program inst) (is_drum inst) v.
Definition set_program (v : Z) (inst : Instrument) : Instrument :=
  mkInstrument v (is_drum inst) (notes inst).

(** [low <= n.pitch <= high]. *)
Definition within (low high : Z) (n : Note) : bool :=
  ((low <=? pitch n) && (pitch n <=? high))%Z.

(** [low < n.pitch < high]. *)
Definition strictly_within (low high : Z) (n : Note) : bool :=
  ((low <? pitch n) && (pitch n <? high))%Z.

(** [program in valid_programs]. *)
Definition listed (valid_programs : list Z) (p : Z) : bool :=
  existsb (Z.eqb p) valid_programs.

(** The new instrument collects the notes in range, instrument by
    instrument, and is appended after the loop. *)
Definition change_range_to_instrument (low_pitch high_pitch new_program : Z)
           (instruments : list Instrument) : list Instrument :=
  map (fun inst =>
         set_notes
           (filter (fun n => negb (within low_pitch high_pitch n))
                   (notes inst))
           inst)
      instruments ++
  [mkInstrument new_program false
     (flat_map (fun inst => filter (within low_pitch high_pitch) (notes inst))
               instruments)].

Definition swap_instrument (from_program to_program : Z)
           (instruments : list Instrument) : list Instrument :=
  map (fun inst =>
         if (program inst =? from_program)%Z && negb (is_drum inst)
         then set_program to_program inst
         else inst)
      instruments.

Definition remove_notes_above (prog pitch_cutoff : Z)
           (instruments : list Instrument) : list Instrument :=
  map (fun inst =>
         if (program inst =? prog)%Z && negb (is_drum inst)
         then set_notes
                (filter (fun n => (pitch n <=? pitch_cutoff)%Z) (notes inst))
                inst
         else inst)
      instruments.

Definition remove_notes_outside_pitch_and_instruments
           (valid_programs : list Z) (min_pitch max_pitch : Z)
           (instruments : list Instrument) : list Instrument :=
  map (fun inst =>
         if negb (listed valid_programs (program inst)) || is_drum inst
         then set_notes [] inst
         else set_notes
                (filter (strictly_within min_pitch max_pitch) (notes inst))
                inst)
      instruments.

Definition remove_notes_outside_pitch (min_pitch max_pitch : Z)
           (instruments : list Instrument) : list Instrument :=
  map (fun inst =>
         set_notes (filter (within min_pitch max_pitch) (notes inst)) inst)
      instruments.

Definition remove_instrument (prog : Z) (instruments : list Instrument)
  : list Instrument :=
  filter (fun inst => negb (program inst =? prog)%Z) instruments.

Definition remove_outside_instrument (valid_programs : list Z)
           (instruments : list Instrument) : list Instrument :=
  filter (fun inst => listed valid_programs (program inst)) instruments.

(** The number of notes of a file. *)
Definition note_count (instruments : list Instrument) : nat :=
  list_sum (map (fun inst => List.length (notes inst)) instruments).

Definition sample_band : list Instrument :=
  [ mkInstrument 40 false
      [mkNote 60 90 0 1; mkNote 64 90 1 2; mkNote 90 80 2 3; mkNote 95 80 3 4];
    mkInstrument 0 true [mkNote 36 100 0 1; mkNote 64 100 1 2];
    mkInstrument 24 false [mkNote 70 70 0 4] ].

End Editor.

(** * MIDI messages and files (mido), as the processors use them *)
Module Mido.

(** A message carries its delta time in ticks.  Note and control
    messages and the other channel messages have a channel; meta and
    system messages have none. *)
Inductive Message : Type :=
| NoteOn (channel note velocity time : Z)
| NoteOff (channel note velocity time : Z)
| ControlChange (channel control value time : Z)
| ChannelMessage (kind : string) (channel : Z) (data : list Z) (time : Z)
| OtherMessage (kind : string) (data : list Z) (time : Z).

Definition time_of (m : Message) : Z :=
  match m with
  | NoteOn _ _ _ t | NoteOff _ _ _ t | ControlChange _ _ _ t
  | ChannelMessage _ _ _ t | OtherMessage _ _ t => t
  end.

Definition set_time (t : Z) (m : Message) : Message :=
  match m with
  | NoteOn c n v _ => NoteOn c n v t
  | NoteOff c n v _ => NoteOff c n v t
  | ControlChange c k v _ => ControlChange c k v t
  | ChannelMessage k c d _ => ChannelMessage k c d t
  | OtherMessage k d _ => OtherMessage k d t
  end.

(** [hasattr(msg, 'channel')] and the attribute. *)
Definition channel_of (m : Message) : option Z :=
  match m with
  | NoteOn c _ _ _ | NoteOff c _ _ _ | ControlChange c _ _ _
  | ChannelMessage _ c _ _ => Some c
  | OtherMessage _ _ _ => None
  end.

Definition set_channel (c : Z) (m : Message) : Message :=
  match m with
  | NoteOn _ n v t => NoteOn c n v t
  | NoteOff _ n v t => NoteOff c n v t
  | ControlChange _ k v t => ControlChange c k v t
  | ChannelMessage k _ d t => ChannelMessage k c d t
  | OtherMessage k d t => OtherMessage k d t
  end.

Record MidiFile : Type := mkFile {
  file_type : Z;
  ticks_per_beat : Z;
  tracks : list (list Message)
}.

(** [mido.MidiFile()] without arguments: type 1, 480 ticks per beat. *)
Definition new_file (tpb : Z) : MidiFile := mkFile 1 tpb [].
Definition DEFAULT_TICKS_PER_BEAT : Z := 480.

(** The data bytes mido accepts. *)
Definition message_ok (m : Message) : Prop :=
  match m with
  | NoteOn c n v _ | NoteOff c n v _ =>
      (0 <= c <= 15 /\ 0 <= n <= 127 /\ 0 <= v <= 127)%Z
  | ControlChange c k v _ =>
      (0 <= c <= 15 /\ 0 <= k <= 127 /\ 0 <= v <= 127)%Z
  | ChannelMessage _ c _ _ => (0 <= c <= 15)%Z
  | OtherMessage _ _ _ => True
  end.

(** [int(x)] of a float: truncation towards 0. *)
Definition int_of (x : Q) : Z := Z.quot (Qnum x) (Z.pos (Qden x)).

(** [max(lo, min(hi, x))]. *)
Definition clamp (lo hi x : Z) : Z := Z.max lo (Z.min hi x).

(** ** [MidiEditor.clean_control_changes] (src/catherine.py) *)

Definition is_control (control : Z) (m : Message) : bool :=
  match m with
  | ControlChange _ k _ _ => (k =? control)%Z
  | _ => false
  end.

(** The file that is saved. *)
Definition clean_control_changes (control : Z) (mid : MidiFile) : MidiFile :=
  mkFile 1 (ticks_per_beat mid)
    (map (filter (fun msg => negb (is_control control msg))) (tracks mid)).

(** The ticks from the start of a track to its end. *)
Definition track_ticks (track : list Message) : Z :=
  fold_right (fun msg acc => (time_of msg + acc)%Z) 0%Z track.

(** ** [MidiProcessor.apply_midi_effects]
    (src/midi_processor_clean.py) *)

Definition apply_effects_to (transpose : Z) (velocity_scale time_stretch : Q)
           (msg : Message) : Message :=
  let t := int_of (inject_Z (time_of msg) * time_stretch) in
  match msg with
  | NoteOn c n v _ =>
      NoteOn c (clamp 0 127 (n + transpose))
             (clamp 1 127 (int_of (inject_Z v * velocity_scale))) t
  | NoteOff c n v _ => NoteOff c (clamp 0 127 (n + transpose)) v t
  | _ => set_time t msg
  end.

(** The file after the loop of lines 60-76, as it is handed to [save]. *)
Definition apply_midi_effects (transpose : Z)
           (velocity_scale time_stretch : Q) (mid : MidiFile) : MidiFile :=
  mkFile (file_type mid) (ticks_per_beat mid)
    (map (map (apply_effects_to transpose velocity_scale time_stretch))
         (tracks mid)).




(** ** [MidiProcessor.combine_midi_files]
    (src/midi_processor_clean.py) *)

Inductive midi_on_disk : Type :=
| Absent                    (* os.path.exists is False    *)
| Corrupt                   (* mido.MidiFile(path) raises *)
| Parses (mid : MidiFile).

(** The channel for the file at index [i]. *)
Definition target_channel (channel_assignments : option (list Z)) (i : nat)
  : Z :=
  match channel_assignments with
  | Some (a :: l) =>
      if Nat.ltb i (List.length (a :: l)) then nth i (a :: l) 0%Z
      else (Z.of_nat i mod 16)%Z
  | _ => (Z.of_nat i mod 16)%Z
  end.

(** The copy of a track with its channel messages moved to [target];
    [None] when assigning the channel raises (mido accepts 0..15). *)
Fixpoint reassign (target : Z) (track : list Message)
  : option (list Message) :=
  match track with
  | [] => Some []
  | msg :: rest =>
      match channel_of msg with
      | Some _ =>
          if ((0 <=? target) && (target <=? 15))%Z then
            match reassign target rest with
            | Some rest' => Some (set_channel target msg :: rest')
            | None => None
            end
          else None
      | None =>
          match reassign target rest with
          | Some rest' => Some (msg :: rest')
          | None => None
          end
      end
  end.

(** The tracks of one file that reach the combined file: all of them,
    or those before the first track on which the assignment raises
    (the exception is caught and the rest of the file is dropped). *)
Fixpoint add_tracks (target : Z) (file_tracks : list (list Message))
  : list (list Message) :=
  match file_tracks with
  | [] => []
  | track :: rest =>
      match reassign target track with
      | Some new_track => new_track :: add_tracks target rest
      | None => []
      end
  end.

Fixpoint combine_from (i : nat) (disk : string -> midi_on_disk)
         (channel_assignments : option (list Z)) (midi_files : list string)
  : list (list Message) :=
  match midi_files with
  | [] => []
  | midi_file :: rest =>
      match disk midi_file with
      | Parses mid =>
          add_tracks (target_channel channel_assignments i) (tracks mid)
      | _ => []
      end ++ combine_from (S i) disk channel_assignments rest
  end.

(** The result, and the file saved (if any). *)
Definition combine_midi_files (disk : string -> midi_on_disk)
           (midi_files : list string) (channel_assignments : option (list Z))
  : bool * option MidiFile :=
  match midi_files with
  | [] => (false, None)
  | _ =>
      (true,
       Some (mkFile 1 DEFAULT_TICKS_PER_BEAT
               (combine_from 0 disk channel_assignments midi_files)))
  end.

(** ** [humanize_midi] (src/midi_processor_clean.py and
    src/alternative_midi_mixer.py)

    [randint k a b] is what the [k]-th call of [random.randint] returns
    on the arguments [a] and [b]; the call raises when [a > b]. *)
Definition jitter_ticks_of (timing_jitter_ms : Q) (tpb : Z) : Z :=
  int_of (timing_jitter_ms * inject_Z tpb / (60000 / 120)).

Record humanizer : Type := mkHumanizer {
  abs_time : Z;        (* ticks since the start of the track *)
  drawn : nat          (* calls of random.randint so far     *)
}.

(** Lines 28-47 on one message: the message and the state after it, or
    [None] when [random.randint] raises. *)
Definition humanize_message (randint : nat -> Z -> Z -> Z)
           (timing_jitter_ms : Q) (velocity_jitter : Z) (swing : Q)
           (tpb : Z) (h : humanizer) (msg : Message)
  : option (Message * humanizer) :=
  let abs := (abs_time h + time_of msg)%Z in
  let k := drawn h in
  let jt := jitter_ticks_of timing_jitter_ms tpb in
  let swung (t : Z) : Z :=
    if negb (Qle_bool swing 0) && (0 <? tpb)%Z then
      let eighth_note := (tpb / 2)%Z in
      if (0 <? eighth_note)%Z &&
         negb (((abs / eighth_note) mod 2) =? 0)%Z
      then (t + int_of (swing * inject_Z tpb))%Z
      else t
    else t in
  match msg with
  | NoteOn c n v t =>
      if (jt <? 0)%Z then None
      else
        let t1 := Z.max 0 (t + randint k (- jt)%Z jt) in
        if (velocity_jitter <? 0)%Z then None
        else
          let v1 :=
            clamp 1 127
                  (v + randint (S k) (- velocity_jitter)%Z velocity_jitter) in
          Some (NoteOn c n v1 (swung t1), mkHumanizer abs (S (S k)))
  | NoteOff c n v t =>
      if (jt <? 0)%Z then None
      else
        let t1 := Z.max 0 (t + randint k (- jt)%Z jt) in
        Some (NoteOff c n v (swung t1), mkHumanizer abs (S k))
  | _ => Some (msg, mkHumanizer abs k)
  end.

Fixpoint humanize_track (randint : nat -> Z -> Z -> Z)
         (timing_jitter_ms : Q) (velocity_jitter : Z) (swing : Q)
         (tpb : Z) (h : humanizer) (track : list Message)
  : option (list Message * nat) :=
  match track with
  | [] => Some ([], drawn h)
  | msg :: rest =>
      match humanize_message randint timing_jitter_ms velocity_jitter swing
                             tpb h msg with
      | None => None
      | Some (msg', h') =>
          match humanize_track randint timing_jitter_ms velocity_jitter
                               swing tpb h' rest with
          | None => None
          | Some (rest', k) => Some (msg' :: rest', k)
          end
      end
  end.

Fixpoint humanize_tracks (randint : nat -> Z -> Z -> Z)
         (timing_jitter_ms : Q) (velocity_jitter : Z) (swing : Q)
         (tpb : Z) (k : nat) (file_tracks : list (list Message))
  : option (list (list Message)) :=
  match file_tracks with
  | [] => Some []
  | track :: rest =>
      match humanize_track randint timing_jitter_ms velocity_jitter swing
                           tpb (mkHumanizer 0 k) track with
      | None => None
      | Some (track', k') =>
          match humanize_tracks randint timing_jitter_ms velocity_jitter
                                swing tpb k' rest with
          | None => None
          | Some rest' => Some (track' :: rest')
          end
      end
  end.

(** The file that is saved; [None] when [random.randint] raises. *)
Definition humanize_midi (randint : nat -> Z -> Z -> Z)
           (timing_jitter_ms : Q) (velocity_jitter : Z) (swing : Q)
           (mid : MidiFile) : option MidiFile :=
  match humanize_tracks randint timing_jitter_ms velocity_jitter swing
                        (ticks_per_beat mid) 0 (tracks mid) with
  | None => None
  | Some new_tracks =>
      Some (mkFile (file_type mid) (ticks_per_beat mid) new_tracks)
  end.

(** What holds of every message of a file. *)
Definition all_messages (P : Message -> Prop) (mid : MidiFile) : Prop :=
  forall track msg, In track (tracks mid) -> In msg track -> P msg.


Definition is_note (msg : Message) : bool :=
  match msg with
  | NoteOn _ _ _ _ | NoteOff _ _ _ _ => true
  | _ => false
  end.

(** Delta times of notes not negative, velocities of [note_on] within
    1..127. *)
Definition humanized_ok (msg : Message) : Prop :=
  match msg with
  | NoteOn _ _ v t => (1 <= v <= 127 /\ 0 <= t)%Z
  | NoteOff _ _ _ t => (0 <= t)%Z
  | _ => True
  end.

(** [msg'] stands where [msg] stood and differs from it at most by what
    lines 36, 41 and 47 assign: the delta time of a note message and the
    velocity of a [note_on]. *)
Definition humanized_from (msg msg' : Message) : Prop :=
  match msg with
  | NoteOn c n _ _ =>
      exists v' t', msg' = NoteOn c n v' t' /\ (1 <= v' <= 127 /\ 0 <= t')%Z
  | NoteOff c n v _ => exists t', msg' = NoteOff c n v t' /\ (0 <= t')%Z
  | _ => msg' = msg
  end.

(** The channel, if any, is one mido accepts. *)
Definition channel_ok (msg : Message) : Prop :=
  match channel_of msg with
  | Some c => (0 <= c <= 15)%Z
  | None => True
  end.

(** A random source that always returns the lower bound. *)
Definition lowest (_ : nat) (a _ : Z) : Z := a.

Definition sample_track_a : list Message :=
  [ OtherMessage "set_tempo" [500000%Z] 0; NoteOn 3 60 90 0;
    NoteOff 3 60 0 96 ]%Z.

Definition sample_disk (path : string) : midi_on_disk :=
  if String.eqb path "a.mid" then Parses (mkFile 0 96 [sample_track_a])
  else if String.eqb path "b.mid" then Corrupt
  else if String.eqb path "c.mid" then Parses (mkFile 1 960 [sample_track_a])
  else Absent.

Definition sample_track : list Message :=
  [ OtherMessage "set_tempo" [500000%Z] 0;
    NoteOn 0 60 0 0; ControlChange 0 64 127 120;
    NoteOn 0 125 100 240; NoteOff 0 60 0 120 ]%Z.

Definition sample_file : MidiFile := mkFile 0 96 [sample_track].

End Mido.

(** ** Proof support *)

Ltac open_player s :=
  destruct s as [md ob cb playing paused th st pt pos path audio].

(** Unfolds the methods, the monad and the attribute accesses; the
    arithmetic on [Q] is left folded. *)
Ltac run_py :=
  cbv [load_midi_file set_bpm get_tempo_ratio play_with_pygame stop_pygame
       play pause resume join_play_thread stop get_status seek
       play_worker_begin play_worker_tick perform worker_alive
       bind ret raise attr assign emit when catch state_of effects_of app
       midi_data original_bpm current_bpm is_playing is_paused play_thread
       start_time pause_time current_position current_file_path audio_enabled
       set_midi_data set_original_bpm set_current_bpm set_is_playing
       set_is_paused set_play_thread set_start_time set_pause_time
       set_current_position set_current_file_path goto
       andb negb orb is_alive] in *.

(** Splits on an innermost test the goal is stuck on, and resumes. *)
Ltac split_test :=
  match goal with
  | |- context [match ?x with _ => _ end] =>
      lazymatch x with
      | context [match _ with _ => _ end] => fail
      | _ => first [is_var x; destruct x | destruct x eqn:?]
      end
  end; run_py.

Lemma Qle_bool_false (x y : Q) : Qle_bool x y = false -> y < x.
Proof.
  intros H. apply Qnot_le_lt. intros Hle.
  apply Qle_bool_iff in Hle. congruence.
Qed.

Lemma Qlt_bool_iff (x y : Q) : Qlt_bool x y = true <-> x < y.
Proof.
  unfold Qlt_bool. split.
  - intros H. apply Qle_bool_false. now apply negb_true_iff.
  - intros H. apply negb_true_iff.
    destruct (Qle_bool y x) eqn:E; [|reflexivity].
    apply Qle_bool_iff in E. exfalso. apply (Qlt_not_le _ _ H E).
Qed.

Lemma Qlt_bool_false (x y : Q) : Qlt_bool x y = false <-> y <= x.
Proof.
  unfold Qlt_bool. rewrite negb_false_iff. apply Qle_bool_iff.
Qed.

Lemma Qeq_bool_pos (x : Q) : 0 < x -> Qeq_bool x 0 = false.
Proof.
  intros H. destruct (Qeq_bool x 0) eqn:E; [|reflexivity].
  apply Qeq_bool_eq in E. rewrite E in H. exfalso. apply (Qlt_irrefl _ H).
Qed.

Lemma ratio_nonneg (a b : Q) : 0 < a -> 0 < b -> 0 <= a / b.
Proof.
  intros Ha Hb. unfold Qdiv. apply Qmult_le_0_compat.
  - apply Qlt_le_weak, Ha.
  - apply Qlt_le_weak, Qinv_lt_0_compat, Hb.
Qed.

Lemma base_tempo_pos (m : PrettyMIDI) : midi_ok m -> 0 < base_tempo m.
Proof.
  unfold midi_ok, base_tempo. intros [_ H].
  destruct (get_tempo_changes m); [reflexivity | exact H].
Qed.

(** ** The tick and the line-by-line worker agree *)

Lemma worker_steps_add (n m : nat) (now : Q) (s : MIDIPlayer) :
  worker_steps (n + m) now s = worker_steps m now (worker_steps n now s).
Proof.
  revert s. induction n as [|n IH]; intros s; [reflexivity|].
  cbn [Nat.add worker_steps]. apply IH.
Qed.

Ltac run_worker :=
  cbv [load_midi_file set_bpm get_tempo_ratio play_with_pygame stop_pygame
       play pause resume join_play_thread stop get_status seek
       play_worker_begin play_worker_tick perform worker_alive
       bind ret raise attr assign emit when catch state_of effects_of app
       midi_data original_bpm current_bpm is_playing is_paused play_thread
       start_time pause_time current_position current_file_path audio_enabled
       set_midi_data set_original_bpm set_current_bpm set_is_playing
       set_is_paused set_play_thread set_start_time set_pause_time
       set_current_position set_current_file_path goto
       andb negb orb is_alive
       worker_steps worker_step] in *.

Lemma tick_is_six_lines (now total : Q) (s : MIDIPlayer) :
  play_thread s = Some (L131 total) ->
  state_of (play_worker_tick now s) = worker_steps 6 now s.
Proof.
  open_player s. cbn [play_thread]. intros ->.
  destruct playing; [|run_worker; reflexivity].
  destruct paused; [run_worker; reflexivity|].
  destruct (Qle_bool total (now - st)) eqn:Hend;
    run_worker; rewrite Hend; reflexivity.
Qed.

Lemma begin_is_three_lines (now : Q) (s : MIDIPlayer) :
  play_thread s = Some L125 ->
  state_of (play_worker_begin s) = worker_steps 3 now s.
Proof.
  open_player s. cbn [play_thread]. intros ->.
  destruct md; [|run_worker; reflexivity].
  destruct (Qeq_bool cb 0) eqn:Hz; run_worker; rewrite Hz; reflexivity.
Qed.

(** ** Commands run line by line without interruption *)

Ltac run_lines :=
  cbv [load_midi_file set_bpm get_tempo_ratio play_with_pygame stop_pygame
       play pause resume join_play_thread stop get_status seek
       play_worker_begin play_worker_tick perform worker_alive
       bind ret raise attr assign emit when catch state_of effects_of app
       midi_data original_bpm current_bpm is_playing is_paused play_thread
       start_time pause_time current_position current_file_path audio_enabled
       set_midi_data set_original_bpm set_current_bpm set_is_playing
       set_is_paused set_play_thread set_start_time set_pause_time
       set_current_position set_current_file_path goto
       andb negb orb is_alive
       worker_steps worker_step run step call ctl_step self ctl log
       half_applied] in *.

Lemma pause_lines (now : Q) (c : config) :
  ctl c = Idle ->
  run [Call CallPause; Ctl now; Ctl now; Ctl now] c =
  (if is_playing (self c) && negb (is_paused (self c))
   then Some (mkConfig (state_of (pause now (self c))) Idle
                (log c ++ effects_of (pause now (self c))))
   else None).
Proof.
  destruct c as [s pc lg]. cbn [ctl self log]. intros ->.
  open_player s. destruct playing, paused, audio; run_lines; reflexivity.
Qed.

Lemma resume_lines (now : Q) (c : config) :
  ctl c = Idle ->
  run [Call CallResume; Ctl now; Ctl now; Ctl now; Ctl now] c =
  (if is_playing (self c) && is_paused (self c)
   then Some (mkConfig (state_of (resume now (self c))) Idle
                (log c ++ effects_of (resume now (self c))))
   else None).
Proof.
  destruct c as [s pc lg]. cbn [ctl self log]. intros ->.
  open_player s. destruct playing, paused, audio; run_lines; reflexivity.
Qed.

Lemma stop_lines (now total : Q) (c : config) :
  ctl c = Idle ->
  is_playing (self c) = true ->
  play_thread (self c) = Some (L131 total) ->
  run [Call CallStop; Ctl now; Ctl now; Ctl now; Ctl now; Ctl now;
       Wrk now; Ctl now] c =
  Some (mkConfig (state_of (stop (self c))) Idle
          (log c ++ effects_of (stop (self c)))).
Proof.
  destruct c as [s pc lg]. cbn [ctl self log]. intros -> Hp Hth.
  open_player s. cbn [is_playing play_thread] in Hp, Hth. subst.
  destruct audio; run_lines; do 2 f_equal.
  - exact (eq_sym (app_assoc lg [MusicStop] [ThreadJoin 1])).
  - exact (eq_sym (app_assoc lg [] [ThreadJoin 1])).
Qed.

(** ** The invariants hold in every state reached by whole operations *)

Lemma inv_init (audio : bool) : inv (init audio).
Proof.
  split; cbv [init tempo_ok paused_implies_playing]; cbn; try discriminate.
  split; reflexivity.
Qed.

Ltac inv_facts :=
  repeat match goal with
  | H : Qle_bool _ _ = false |- _ => apply Qle_bool_false in H
  | H : Qeq_bool ?x 0 = true, P : 0 < ?x |- _ =>
      rewrite (Qeq_bool_pos x P) in H; discriminate H
  | H : Some _ = Some _ |- _ => injection H as H; subst
  | Hs : ?p = true -> None <> None, H : ?p = true |- _ =>
      exact (False_ind _ (Hs H eq_refl))
  | Hok : disk_ok ?disk, H : ?disk _ = Parsed ?m |- _ =>
      pose proof (base_tempo_pos m (Hok _ _ H));
      pose proof (Hok _ _ H); clear H
  end.

Ltac inv_close :=
  split;
  cbv [tempo_ok paused_implies_playing worker_alive is_alive
       midi_data original_bpm current_bpm is_playing is_paused play_thread];
  intros; inv_facts;
  try solve [ discriminate | congruence | reflexivity | auto
            | split; solve [auto | reflexivity] ].

Lemma perform_preserves_inv (op : operation) (s : MIDIPlayer) :
  op_ok op -> inv s -> inv (perform op s).
Proof.
  intros Hok [[Ho Hc] Hp Hs Ht Hm]. open_player s.
  cbv [paused_implies_playing] in Hp.
  cbn [midi_data original_bpm current_bpm is_playing is_paused play_thread]
    in *.
  destruct op; cbn [op_ok] in Hok; run_py; repeat split_test; inv_close.
  all: match goal with
       | P : 0 < base_tempo ?m, E : get_tempo_changes ?m = _ |- _ =>
           unfold base_tempo in P; rewrite E in P; split; exact P
       end.
Qed.

Lemma reachable_inv (s : MIDIPlayer) : reachable s -> inv s.
Proof.
  induction 1 as [audio | op s _ IH Hok].
  - apply inv_init.
  - now apply perform_preserves_inv.
Qed.

(** Splits on an innermost test that hypothesis [H] is stuck on. *)
Ltac split_hyp H :=
  match type of H with
  | context [match ?x with _ => _ end] =>
      lazymatch x with
      | context [match _ with _ => _ end] => fail
      | _ => first [is_var x; destruct x | destruct x eqn:?]
      end
  end; run_py.

(** * The claims *)

(** C1.  In a state that is playing and paused, [resume] returns [True],
    moves [start_time] forward by exactly [now - pause_time] and clears
    [is_paused], so [now - start_time] right after the call is
    [pause_time - start_time] of the paused state.  When that state was
    produced by [pause] at clock [t1], this is the position [t1 - start_time]
    at which [pause] was called; and when the playing state came from
    [play] at clock [t0] from position [p], it is [p + (t1 - t0)]: the
    time spent paused adds nothing. *)
Theorem resume_keeps_position_continuous :
  forall (now : Q) (s : MIDIPlayer),
    is_playing s = true ->
    is_paused s = true ->
    (exists s',
        resume now s =
          Returns true s' (if audio_enabled s then [MusicUnpause] else []) /\
        start_time s' = start_time s + (now - pause_time s) /\
        is_paused s' = false /\
        is_playing s' = true /\
        pause_time s' = pause_time s /\
        current_position s' = current_position s /\
        now - start_time s' == pause_time s - start_time s) /\
    (forall (t1 : Q) (s1 : MIDIPlayer) (fx1 : list effect),
        pause t1 s1 = Returns true s fx1 ->
        now - start_time (state_of (resume now s)) == t1 - start_time s1 /\
        forall (bk : backend) (t0 p : Q) (s0 : MIDIPlayer) (fx0 : list effect),
          play bk t0 p s0 = Returns true s1 fx0 ->
          now - start_time (state_of (resume now s)) == p + (t1 - t0)).
Proof.
  intros now s Hplaying Hpaused. split.
  - open_player s. run_py. subst.
    exists (mkPlayer md ob cb true false th (st + (now - pt)) pt pos path audio).
    destruct audio; repeat split; try reflexivity; ring.
  - intros t1 s1 fx1 Hpause.
    assert (Hs : start_time s = start_time s1 /\ pause_time s = t1).
    { open_player s1. run_py. repeat split_hyp Hpause; try discriminate.
      all: injection Hpause as <- _; split; reflexivity. }
    destruct Hs as [Hst Hpt].
    assert (Hr : start_time (state_of (resume now s)) =
                 start_time s + (now - pause_time s)).
    { clear Hpause. open_player s. run_py. subst.
      destruct audio; reflexivity. }
    rewrite Hr, Hst, Hpt. split; [ring|].
    intros bk t0 p s0 fx0 Hplay.
    assert (Hs1 : start_time s1 = t0 - p).
    { clear Hpause Hst. open_player s0. run_py.
      repeat split_hyp Hplay; try discriminate.
      all: injection Hplay as <- _; reflexivity. }
    rewrite Hs1. ring.
Qed.

Lemma resume_keeps_position_continuous_witness :
  (exists s',
      resume 8 paused_at_3 = Returns true s' [MusicUnpause] /\
      start_time s' = 0 - 0 + (8 - 3) /\
      is_paused s' = false) /\
  8 - start_time (state_of (resume 8 paused_at_3)) == 3 - start_time started.
Proof.
  destruct (resume_keeps_position_continuous 8 paused_at_3 eq_refl eq_refl)
    as [[s' [H1 [H2 [H3 _]]]] H].
  split.
  - exists s'. repeat split; assumption.
  - exact (proj1 (H 3 started [MusicPause] eq_refl)).
Defined.

(** C4.  [play] returns [False] and leaves the player as it was when no
    source is loaded, and also when [is_playing] is already true.
    Otherwise it returns [True] with [is_playing] set, [is_paused] clear,
    [current_position] the requested position and [start_time] equal to
    [now - start], so that [now - start_time] is the requested position;
    it starts the worker thread, whatever the audio backend does. *)
Theorem play_contract :
  forall (bk : backend) (now start : Q) (s : MIDIPlayer),
    (midi_data s = None -> play bk now start s = Returns false s []) /\
    (is_playing s = true -> play bk now start s = Returns false s []) /\
    (midi_data s <> None ->
     is_playing s = false ->
     exists s' fx,
       play bk now start s = Returns true s' fx /\
       is_playing s' = true /\
       is_paused s' = false /\
       current_position s' = start /\
       start_time s' = now - start /\
       now - start_time s' == start /\
       play_thread s' = Some L125 /\
       In ThreadStart fx /\
       midi_data s' = midi_data s /\
       original_bpm s' = original_bpm s /\
       current_bpm s' = current_bpm s /\
       pause_time s' = pause_time s).
Proof.
  intros bk now start s. open_player s. run_py. repeat split.
  - intros ->. reflexivity.
  - intros ->. destruct md; reflexivity.
  - intros Hmd ->. destruct md as [m|]; [clear Hmd | congruence].
    destruct (truthy_path path), audio, bk; cbn;
      (do 2 eexists; split; [reflexivity|]);
      cbn; repeat split; auto; ring.
Qed.

Lemma play_contract_witness :
  play Plays 7 2 (init true) = Returns false (init true) [] /\
  play Plays 7 2 started = Returns false started [] /\
  exists s' fx,
    play Plays 7 2 loaded = Returns true s' fx /\
    is_playing s' = true /\ is_paused s' = false /\
    current_position s' = 2 /\ start_time s' = 7 - 2.
Proof.
  destruct (play_contract Plays 7 2 (init true)) as [H1 _].
  destruct (play_contract Plays 7 2 started) as [_ [H2 _]].
  destruct (play_contract Plays 7 2 loaded) as [_ [_ H3]].
  split; [exact (H1 eq_refl)|]. split; [exact (H2 eq_refl)|].
  destruct (H3 ltac:(discriminate) eq_refl)
    as [s' [fx [E [A [B [C [D _]]]]]]].
  exists s', fx. repeat split; assumption.
Defined.

(** [stop] taken as one uninterrupted call, the worker between two
    passes of its loop: it returns [False] and leaves the player as it
    was when [is_playing] is false; when [is_playing] is true it returns
    [True] with [is_playing] and [is_paused] clear and
    [current_position] 0, after stopping the mixer (when audio is
    enabled) and joining the worker thread with a timeout of one second
    (when it is alive, which it is in every state reached by whole
    operations). *)
Lemma stop_contract :
  forall (s : MIDIPlayer),
    (is_playing s = false -> stop s = Returns false s []) /\
    (is_playing s = true ->
     exists s',
       stop s =
         Returns true s'
           ((if audio_enabled s then [MusicStop] else []) ++
            (if worker_alive s then [ThreadJoin 1] else [])) /\
       is_playing s' = false /\
       is_paused s' = false /\
       current_position s' = 0 /\
       worker_alive s' = false /\
       midi_data s' = midi_data s /\
       original_bpm s' = original_bpm s /\
       current_bpm s' = current_bpm s /\
       (reachable s -> In (ThreadJoin 1) (effects_of (stop s)))).
Proof.
  intros s. split.
  - open_player s. run_py. intros ->. reflexivity.
  - intros Hp.
    assert (Hjoin : reachable s -> worker_alive s = true).
    { intros Hr. exact (inv_thread s (reachable_inv s Hr) Hp). }
    open_player s. run_py. subst.
    destruct audio, th as [w|]; [destruct w | | destruct w |];
      (eexists; split; [reflexivity|]);
      cbn; repeat split; auto;
      intros Hr; discriminate (Hjoin Hr).
Qed.

Lemma stop_contract_witness :
  stop loaded = Returns false loaded [] /\
  exists s',
    stop started = Returns true s' [MusicStop; ThreadJoin 1] /\
    is_playing s' = false /\ is_paused s' = false /\
    current_position s' = 0.
Proof.
  destruct (stop_contract loaded) as [H1 _].
  destruct (stop_contract started) as [_ H2].
  split; [exact (H1 eq_refl)|].
  destruct (H2 eq_refl) as [s' [E [A [B [C _]]]]].
  exists s'. repeat split; assumption.
Defined.

(** ** [stop] against the worker, line by line *)

(** The worker never sets [is_playing] and never assigns [is_paused]. *)
Lemma worker_step_keeps_stopped (now : Q) (s : MIDIPlayer) :
  (is_playing s = false -> is_playing (worker_step now s) = false) /\
  is_paused (worker_step now s) = is_paused s.
Proof.
  open_player s. destruct th as [w|]; [destruct w|];
    run_worker; repeat split_test; split; auto.
Qed.

(** Inside [stop] no line of either thread sets a flag again. *)
Lemma step_keeps_stopping (a : action) (c c' : config) :
  is_line a = true -> stopping c -> step a c = Some c' -> stopping c'.
Proof.
  destruct c as [s pc lg]. destruct a as [cmd | now | now];
    [discriminate | |]; intros _ Hs H.
  - unfold stopping in *.
    destruct pc; cbn [step ctl_step self ctl log] in *;
      try (destruct Hs; fail); try discriminate H.
    + injection H as <-. open_player s. reflexivity.
    + injection H as <-. open_player s. cbn in *. auto.
    + injection H as <-. open_player s. cbn in *. exact Hs.
    + injection H as <-. exact Hs.
    + destruct (worker_alive s) eqn:Hw; injection H as <-; cbn [ctl self].
      * exact Hs.
      * destruct Hs as [A B]. auto.
    + destruct (worker_alive s) eqn:Hw; [discriminate H|].
      injection H as <-. cbn [ctl self]. destruct Hs as [A B]. auto.
  - cbn [step self ctl log] in H.
    destruct (worker_alive s) eqn:Hw; [|discriminate H].
    injection H as <-.
    destruct (worker_step_keeps_stopped now s) as [A B].
    unfold stopping in *. cbn [ctl self] in *.
    destruct pc; try exact Hs; try (rewrite B; tauto).
    + destruct Hs as [_ [_ Hn]]. congruence.
    + auto.
Qed.

Lemma run_keeps_stopping (sched : list action) (c c' : config) :
  forallb is_line sched = true -> stopping c -> run sched c = Some c' ->
  stopping c'.
Proof.
  revert c. induction sched as [|a sched IH]; intros c Hl Hs H.
  - injection H as <-. exact Hs.
  - cbn [forallb] in Hl. apply andb_true_iff in Hl. destruct Hl as [Ha Hl].
    cbn [run] in H. destruct (step a c) as [c1|] eqn:E; [|discriminate H].
    exact (IH c1 Hl (step_keeps_stopping a c c1 Ha Hs E) H).
Qed.

(** However the worker interleaves, [stop] returns with both flags
    clear; [join] has waited for the worker. *)
Lemma stop_ends_stopped (sched : list action) (s : MIDIPlayer)
      (lg : list effect) (c' : config) :
  is_playing s = true ->
  forallb is_line sched = true ->
  run (Call CallStop :: sched) (mkConfig s Idle lg) = Some c' ->
  ctl c' = Idle ->
  is_playing (self c') = false /\ is_paused (self c') = false /\
  worker_alive (self c') = false.
Proof.
  intros Hp Hl H Hc.
  cbn [run step call ctl self log] in H. rewrite Hp in H.
  pose proof (run_keeps_stopping sched (mkConfig s S172 lg) c' Hl I H) as Hs.
  unfold stopping in Hs. rewrite Hc in Hs. exact Hs.
Qed.

(** [stop] uninterrupted up to its [join], the worker holding no
    reading: the worker leaves its loop without storing a position, and
    the result is that of [stop] taken as one step. *)
Lemma stop_lines_at_rest (now : Q) (c : config) (w : worker) :
  ctl c = Idle ->
  is_playing (self c) = true ->
  play_thread (self c) = Some w ->
  is_alive w = true ->
  reading_in_hand w = false ->
  exists k,
    run ([Call CallStop; Ctl now; Ctl now; Ctl now; Ctl now; Ctl now] ++
         repeat (Wrk now) k ++ [Ctl now]) c =
    Some (mkConfig (state_of (stop (self c))) Idle
            (log c ++ effects_of (stop (self c)))).
Proof.
  destruct c as [s pc lg]. cbn [ctl self log]. intros -> Hp Hth Ha Hr.
  open_player s. cbn [is_playing play_thread] in Hp, Hth. subst.
  assert (Hlog : forall fx : list effect,
             (lg ++ fx) ++ [ThreadJoin 1] = lg ++ fx ++ [ThreadJoin 1])
    by (intros fx; symmetry; apply app_assoc).
  destruct w as [| |r|t|t|t|t ct|t|t|t|]; try discriminate Ha;
    try discriminate Hr.
  - destruct md as [m|].
    + destruct (Qeq_bool cb 0) eqn:Hz.
      * exists 2%nat. cbn [repeat app].
        destruct audio; run_lines; rewrite ?Hz; run_lines;
          rewrite Hlog; reflexivity.
      * exists 4%nat. cbn [repeat app].
        destruct audio; run_lines; rewrite ?Hz; run_lines;
          rewrite Hlog; reflexivity.
    + exists 1%nat. cbn [repeat app].
      destruct audio; run_lines; rewrite Hlog; reflexivity.
  - destruct (Qeq_bool cb 0) eqn:Hz.
    + exists 1%nat. cbn [repeat app].
      destruct audio; run_lines; rewrite ?Hz; run_lines;
        rewrite Hlog; reflexivity.
    + destruct md as [m|].
      * exists 3%nat. cbn [repeat app].
        destruct audio; run_lines; rewrite ?Hz; run_lines;
          rewrite Hlog; reflexivity.
      * exists 2%nat. cbn [repeat app].
        destruct audio; run_lines; rewrite ?Hz; run_lines;
          rewrite Hlog; reflexivity.
  - destruct md as [m|].
    + exists 2%nat. cbn [repeat app].
      destruct audio; run_lines; rewrite Hlog; reflexivity.
    + exists 1%nat. cbn [repeat app].
      destruct audio; run_lines; rewrite Hlog; reflexivity.
  - exists 1%nat. cbn [repeat app].
    destruct audio; run_lines; rewrite Hlog; reflexivity.
  - destruct (Qle_bool t 0) eqn:He.
    + exists 2%nat. cbn [repeat app].
      destruct audio; run_lines; rewrite ?He; run_lines;
        rewrite Hlog; reflexivity.
    + exists 3%nat. cbn [repeat app].
      destruct audio; run_lines; rewrite ?He; run_lines;
        rewrite Hlog; reflexivity.
  - exists 1%nat. cbn [repeat app].
    destruct audio; run_lines; rewrite Hlog; reflexivity.
  - exists 2%nat. cbn [repeat app].
    destruct audio; run_lines; rewrite Hlog; reflexivity.
Qed.

(** The worker has read the clock and not yet stored its reading when
    [stop] is called: [stop] returns with [current_position] 5, not 0. *)
Lemma stop_returns_with_stale_position :
  exists c,
    run stale_schedule (initial true song "song.mid") = Some c /\
    conc_reachable c /\
    ctl c = Idle /\
    is_playing (self c) = false /\
    worker_alive (self c) = false /\
    current_position (self c) == 5 /\
    ~ current_position (self c) == 0.
Proof.
  eexists. split; [vm_compute; reflexivity|]. split.
  - exists true, song, "song.mid"%string, stale_schedule.
    split; [|vm_compute; reflexivity].
    split; [discriminate | reflexivity].
  - split; [reflexivity|]. split; [reflexivity|]. split; [reflexivity|].
    split; [reflexivity | discriminate].
Qed.

(** C7.  [stop] returns [False] and leaves the player as it was when
    [is_playing] is false.  When [is_playing] is true, [stop] has
    returned with [is_playing] and [is_paused] clear however the lines
    of the worker interleave with its own.  When the worker, as [stop]
    is entered, is not between its loop test and the store of the
    position (lines 132-135) and runs only while [stop] waits in
    [join], [stop] returns [True] with [current_position] 0, after
    stopping the mixer (when audio is enabled) and joining the worker
    with a timeout of one second. *)
Theorem stop_contract_between_ticks :
  forall (s : MIDIPlayer) (lg : list effect),
    (is_playing s = false ->
     stop s = Returns false s [] /\
     run [Call CallStop] (mkConfig s Idle lg) = Some (mkConfig s Idle lg)) /\
    (is_playing s = true ->
     (forall sched c',
         forallb is_line sched = true ->
         run (Call CallStop :: sched) (mkConfig s Idle lg) = Some c' ->
         ctl c' = Idle ->
         is_playing (self c') = false /\ is_paused (self c') = false) /\
     (forall now w,
         play_thread s = Some w ->
         is_alive w = true ->
         reading_in_hand w = false ->
         exists k s',
           stop s =
             Returns true s'
               ((if audio_enabled s then [MusicStop] else []) ++
                [ThreadJoin 1]) /\
           run ([Call CallStop; Ctl now; Ctl now; Ctl now; Ctl now; Ctl now] ++
                repeat (Wrk now) k ++ [Ctl now])
               (mkConfig s Idle lg) =
             Some (mkConfig s' Idle (lg ++ effects_of (stop s))) /\
           is_playing s' = false /\
           is_paused s' = false /\
           current_position s' = 0 /\
           worker_alive s' = false /\
           midi_data s' = midi_data s /\
           original_bpm s' = original_bpm s /\
           current_bpm s' = current_bpm s)).
Proof.
  intros s lg. split.
  - intros Hp. split.
    + open_player s. run_py. cbn [is_playing] in Hp. subst. reflexivity.
    + cbn [run step call ctl self log]. rewrite Hp. reflexivity.
  - intros Hp. split.
    + intros sched c' Hl H Hc.
      destruct (stop_ends_stopped sched s lg c' Hp Hl H Hc) as [A [B _]].
      split; assumption.
    + intros now w Hth Ha Hr.
      destruct (stop_contract s) as [_ Hstop].
      destruct (Hstop Hp) as [s' [E [A [B [C [D [F [G [K _]]]]]]]]].
      destruct (stop_lines_at_rest now (mkConfig s Idle lg) w
                  eq_refl Hp Hth Ha Hr) as [k Hrun].
      exists k, s'.
      assert (Halive : worker_alive s = true).
      { unfold worker_alive. rewrite Hth. exact Ha. }
      rewrite Halive in E. split; [exact E|]. split.
      * replace s' with (state_of (stop s)) by (rewrite E; reflexivity).
        exact Hrun.
      * repeat split; assumption.
Qed.

Lemma stop_contract_between_ticks_witness :
  (stop loaded = Returns false loaded [] /\
   run [Call CallStop] (mkConfig loaded Idle []) =
     Some (mkConfig loaded Idle [])) /\
  (exists c',
      run stale_schedule (initial true song "song.mid") = Some c' /\
      is_playing (self c') = false /\ is_paused (self c') = false) /\
  exists k s',
    stop started = Returns true s' [MusicStop; ThreadJoin 1] /\
    run ([Call CallStop; Ctl 4; Ctl 4; Ctl 4; Ctl 4; Ctl 4] ++
         repeat (Wrk 4) k ++ [Ctl 4]) (mkConfig started Idle []) =
      Some (mkConfig s' Idle ([] ++ effects_of (stop started))) /\
    current_position s' = 0.
Proof.
  split; [exact (proj1 (stop_contract_between_ticks loaded []) eq_refl)|].
  split.
  - eexists. split; [vm_compute; reflexivity|].
    apply (proj1 (proj2 (stop_contract_between_ticks
                           (worker_steps 3 5 started)
                           [MusicLoad "song.mid"; MusicPlay; ThreadStart])
                   eq_refl)
             [Ctl 5; Ctl 5; Ctl 5; Ctl 5; Ctl 5; Wrk 5; Wrk 5; Wrk 5; Wrk 5;
              Ctl 5]).
    + reflexivity.
    + vm_compute. reflexivity.
    + reflexivity.
  - destruct (proj2 (proj2 (stop_contract_between_ticks started []) eq_refl)
                4 (L131 (10 * (120 / 120))) eq_refl eq_refl eq_refl)
      as [k [s' [E [R [_ [_ [C _]]]]]]].
    exists k, s'. split; [exact E|]. split; [exact R | exact C].
Defined.


Lemma begin_after_play (bk : backend) (t0 p : Q) (s0 : MIDIPlayer)
      (m : PrettyMIDI) :
  midi_data s0 = Some m ->
  is_playing s0 = false ->
  ~ current_bpm s0 == 0 ->
  play_thread (state_of (play_worker_begin (state_of (play bk t0 p s0)))) =
  Some (L131 (get_end_time m * (original_bpm s0 / current_bpm s0))).
Proof.
  intros Hmd Hpl Hbpm. open_player s0. run_py. subst.
  repeat split_test; try reflexivity.
  all: match goal with
       | Hz : Qeq_bool _ 0 = true |- _ =>
           apply Qeq_bool_eq in Hz; contradiction
       end.
Qed.

(** C3.  A tick of the worker at the head of its loop, with
    [total_duration] as captured when the thread began, calls neither
    the mixer nor anything else.  If the player is playing and not
    paused and [now - start_time] has reached [total_duration], the tick
    clears [is_playing] and the thread leaves its loop.  That is the only
    way a tick changes [is_playing], and a tick assigns nothing but
    [current_position] and [is_playing].  When the thread begins right
    after [play], the captured value is the source's duration times
    [original_bpm / current_bpm] at that moment. *)
Theorem tick_auto_stop :
  forall (now total : Q) (s : MIDIPlayer),
    play_thread s = Some (L131 total) ->
    exists s',
      play_worker_tick now s = Returns tt s' [] /\
      same_but_position_and_playing s s' /\
      (is_playing s = true -> is_paused s = false ->
       total <= now - start_time s ->
       is_playing s' = false /\
       play_thread s' = Some Exited /\
       current_position s' = now - start_time s) /\
      (is_playing s' <> is_playing s ->
       is_playing s = true /\ is_paused s = false /\
       total <= now - start_time s /\ is_playing s' = false) /\
      (is_playing s' = true -> play_thread s' = Some (L131 total)) /\
      (forall (bk : backend) (t0 p : Q) (s0 : MIDIPlayer) (m : PrettyMIDI),
          midi_data s0 = Some m ->
          is_playing s0 = false ->
          ~ current_bpm s0 == 0 ->
          play_thread
            (state_of (play_worker_begin (state_of (play bk t0 p s0)))) =
          Some (L131 (get_end_time m * (original_bpm s0 / current_bpm s0)))).
Proof.
  intros now total s Hth. open_player s. cbn [play_thread] in Hth. subst th.
  unfold same_but_position_and_playing. run_py.
  destruct playing, paused; try destruct (Qle_bool total (now - st)) eqn:Hend;
    (eexists; split; [reflexivity|]); cbn.
  all: repeat split; auto; try congruence.
  all: try match goal with
           | H : ?t <= ?x, E : Qle_bool ?t ?x = false |- _ =>
               apply Qle_bool_iff in H; congruence
           | E : Qle_bool ?t ?x = true |- ?t <= ?x =>
               apply Qle_bool_iff; exact E
           end.
  all: intros; now apply begin_after_play.
Qed.

Lemma tick_auto_stop_witness :
  exists s',
    play_worker_tick 10 started = Returns tt s' [] /\
    is_playing s' = false /\
    play_thread s' = Some Exited /\
    current_position s' = 10 - start_time started.
Proof.
  destruct (tick_auto_stop 10 (10 * (120 / 120)) started eq_refl)
    as [s' [E [_ [H _]]]].
  exists s'. split; [exact E|].
  apply H; [reflexivity | reflexivity | discriminate].
Defined.

(** C5.  With a source loaded (of non-negative duration, tempi positive):
    [seek x] returns [False] and leaves the player, hence
    [current_position], as it was when [x < 0] or [x] exceeds the scaled
    duration; [seek] to the scaled duration itself returns [True] and
    sets [current_position] to it; and when the player is not playing, a
    [seek x] within range returns [True], sets [current_position] to [x],
    leaves [is_playing] false and starts no thread and no audio. *)
Theorem seek_contract :
  forall (bk : backend) (now x : Q) (s : MIDIPlayer) (m : PrettyMIDI),
    midi_data s = Some m ->
    0 <= get_end_time m ->
    tempo_ok s ->
    (x < 0 \/ scaled_duration m s < x ->
     seek bk now x s = Returns false s []) /\
    (exists s' fx,
        seek bk now (scaled_duration m s) s = Returns true s' fx /\
        current_position s' = scaled_duration m s) /\
    (0 <= x -> x <= scaled_duration m s -> is_playing s = false ->
     exists s',
       seek bk now x s = Returns true s' [] /\
       s' = set_current_position x s /\
       current_position s' = x /\
       is_playing s' = false /\
       play_thread s' = play_thread s).
Proof.
  intros bk now x s m Hmd Hend [Ho Hc].
  assert (HD : 0 <= scaled_duration m s).
  { unfold scaled_duration. apply Qmult_le_0_compat; [exact Hend|].
    now apply ratio_nonneg. }
  unfold scaled_duration in *. open_player s. run_py. subst md.
  rewrite (Qeq_bool_pos cb Hc).
  set (D := get_end_time m * (ob / cb)) in *.
  repeat split.
  - intros [Hx | Hx].
    + apply Qlt_bool_iff in Hx. rewrite Hx. reflexivity.
    + apply Qlt_bool_iff in Hx. rewrite Hx.
      destruct (Qlt_bool x 0); reflexivity.
  - apply Qlt_bool_false in HD. rewrite HD.
    assert (HDD : Qlt_bool D D = false)
      by (apply Qlt_bool_false, Qle_refl).
    rewrite HDD.
    repeat split_test; (do 2 eexists; split; reflexivity).
  - intros H0 Hx ->.
    apply Qlt_bool_false in H0, Hx. rewrite H0, Hx.
    eexists. repeat split.
Qed.

Lemma seek_contract_witness :
  seek Plays 1 11 loaded = Returns false loaded [] /\
  seek Plays 1 (-1) loaded = Returns false loaded [] /\
  exists s',
    seek Plays 1 4 loaded = Returns true s' [] /\
    current_position s' = 4 /\ is_playing s' = false.
Proof.
  assert (Hend : 0 <= get_end_time song) by discriminate.
  assert (Hok : tempo_ok loaded) by (split; reflexivity).
  destruct (seek_contract Plays 1 11 loaded song eq_refl Hend Hok)
    as [H1 _].
  destruct (seek_contract Plays 1 (-1) loaded song eq_refl Hend Hok)
    as [H2 _].
  destruct (seek_contract Plays 1 4 loaded song eq_refl Hend Hok)
    as [_ [_ H3]].
  split; [apply H1; right; reflexivity|].
  split; [apply H2; left; reflexivity|].
  destruct H3 as [s' [E [_ [A [B _]]]]];
    [discriminate | discriminate | reflexivity |].
  exists s'. repeat split; assumption.
Defined.

(** C6, as stated, fails: a non-positive tempo is not reported by a
    returned failure value; [set_bpm] raises [ValueError]. *)
Lemma set_bpm_rejects_by_raising :
  set_bpm (-5) loaded = Raises ValueError loaded [] /\
  set_bpm 0 loaded = Raises ValueError loaded [] /\
  ~ (exists (r : unit) (s' : MIDIPlayer) (fx : list effect),
        set_bpm (-5) loaded = Returns r s' fx).
Proof.
  split; [reflexivity|]. split; [reflexivity|].
  intros [r [s' [fx H]]]. discriminate H.
Qed.

(** C6, amended.  For [bpm <= 0], [set_bpm] raises [ValueError] and
    leaves the player, hence [current_bpm], as it was.  For [bpm > 0] it
    returns, [current_bpm] is [bpm], the tempo ratio computed afterwards
    is [original_bpm / bpm], and [get_status] reports [bpm] as the
    current tempo and the source's duration times that ratio as the
    duration (0 without a source).  [is_playing] and [is_paused] are
    never changed. *)
Theorem set_bpm_contract :
  forall (bpm : Q) (s : MIDIPlayer),
    (bpm <= 0 -> set_bpm bpm s = Raises ValueError s []) /\
    (0 < bpm ->
     exists s',
       set_bpm bpm s = Returns tt s' [] /\
       s' = set_current_bpm bpm s /\
       current_bpm s' = bpm /\
       get_tempo_ratio s' = Returns (original_bpm s / bpm) s' [] /\
       (exists st,
           get_status s' = Returns st s' [] /\
           st_current_bpm st = bpm /\
           st_original_bpm st = original_bpm s /\
           st_is_playing st = is_playing s /\
           st_is_paused st = is_paused s /\
           st_duration st =
             match midi_data s with
             | Some m => get_end_time m * (original_bpm s / bpm)
             | None => 0
             end)) /\
    is_playing (state_of (set_bpm bpm s)) = is_playing s /\
    is_paused (state_of (set_bpm bpm s)) = is_paused s.
Proof.
  intros bpm s. open_player s. run_py. repeat split.
  - intros H. apply Qle_bool_iff in H. rewrite H. reflexivity.
  - intros H.
    assert (Hle : Qle_bool bpm 0 = false).
    { destruct (Qle_bool bpm 0) eqn:E; [|reflexivity].
      apply Qle_bool_iff in E. exfalso. exact (Qlt_not_le _ _ H E). }
    rewrite Hle. eexists. split; [reflexivity|].
    destruct md; run_py; rewrite ?(Qeq_bool_pos bpm H);
      (split; [reflexivity|]); (split; [reflexivity|]);
      (split; [reflexivity|]);
      eexists; (split; [reflexivity|]); cbn; repeat split.
  - destruct (Qle_bool bpm 0); reflexivity.
  - destruct (Qle_bool bpm 0); reflexivity.
Qed.

Lemma set_bpm_contract_witness :
  set_bpm (-5) loaded = Raises ValueError loaded [] /\
  exists s',
    set_bpm 60 loaded = Returns tt s' [] /\
    current_bpm s' = 60 /\
    exists st,
      get_status s' = Returns st s' [] /\
      st_current_bpm st = 60 /\ st_duration st == 20.
Proof.
  destruct (set_bpm_contract (-5) loaded) as [H1 _].
  destruct (set_bpm_contract 60 loaded) as [_ [H2 _]].
  split; [apply H1; discriminate|].
  destruct H2 as [s' [E [_ [A [_ [st [S [B [_ [_ [_ D]]]]]]]]]]];
    [reflexivity|].
  exists s'. split; [exact E|]. split; [exact A|].
  exists st. split; [exact S|]. split; [exact B|].
  rewrite D. reflexivity.
Defined.

(** C2, as stated, fails: a successful load while the player is playing
    leaves it playing, at the position it had. *)
Lemma load_keeps_transport_state :
  exists s',
    load_midi_file song_disk "other.mid" playing_at_3 = Returns true s' [] /\
    is_playing s' = true /\
    ~ current_position s' == 0 /\
    (exists s'',
        load_midi_file song_disk "other.mid" paused_at_3 =
          Returns true s'' [] /\
        is_paused s'' = true).
Proof.
  eexists. split; [reflexivity|]. split; [reflexivity|].
  split; [discriminate|]. eexists. split; reflexivity.
Qed.

(** C2, amended.  A successful [load_midi_file] stores the source and its
    path and sets [original_bpm] and [current_bpm] to the first tempo the
    source reports, 120 when it reports none; the duration [get_status]
    reports afterwards is that of the new source (the tempo ratio being
    1).  [is_playing], [is_paused], [current_position], [start_time],
    [pause_time] and the worker thread are left as they were. *)
Theorem load_midi_file_contract :
  forall (disk : string -> file) (file_path : string) (m : PrettyMIDI)
         (s : MIDIPlayer),
    disk file_path = Parsed m ->
    exists s',
      load_midi_file disk file_path s = Returns true s' [] /\
      midi_data s' = Some m /\
      current_file_path s' = Some file_path /\
      original_bpm s' = base_tempo m /\
      current_bpm s' = original_bpm s' /\
      (get_tempo_changes m = [] -> current_bpm s' = 120) /\
      is_playing s' = is_playing s /\
      is_paused s' = is_paused s /\
      current_position s' = current_position s /\
      start_time s' = start_time s /\
      pause_time s' = pause_time s /\
      play_thread s' = play_thread s /\
      (~ base_tempo m == 0 ->
       exists st,
         get_status s' = Returns st s' [] /\
         st_duration st = scaled_duration m s' /\
         st_duration st == get_end_time m).
Proof.
  intros disk file_path m s Hdisk. open_player s.
  unfold base_tempo, scaled_duration. run_py. rewrite Hdisk.
  destruct (get_tempo_changes m) as [|bpm rest] eqn:Htempo;
    (eexists; split; [reflexivity|]); cbn;
    repeat (split; [intros; first [reflexivity | discriminate] |]).
  all: intros Hnz; run_py;
    try match goal with
      | |- context [Qeq_bool ?b 0] =>
          destruct (Qeq_bool b 0) eqn:Hz;
          [apply Qeq_bool_eq in Hz; contradiction|]
      end;
    eexists; (split; [reflexivity|]); cbn; (split; [reflexivity|]);
    field; exact Hnz.
Qed.

Lemma load_midi_file_contract_witness :
  exists s',
    load_midi_file song_disk "other.mid" playing_at_3 = Returns true s' [] /\
    current_bpm s' = 120 /\ original_bpm s' = 120 /\
    is_playing s' = true /\ current_position s' = 3 - (0 - 0).
Proof.
  destruct (load_midi_file_contract song_disk "other.mid" song playing_at_3
              eq_refl)
    as [s' [E [_ [_ [A [B [_ [C [_ [D _]]]]]]]]]].
  exists s'. split; [exact E|].
  split; [rewrite B; exact A|]. split; [exact A|].
  split; [exact C | exact D].
Defined.

(** C8, as stated, fails: the worker and [pause] interleaved as in
    [race_schedule] leave the player paused and not playing. *)
Lemma pause_races_with_tick :
  exists c,
    run race_schedule (initial true song "song.mid") = Some c /\
    conc_reachable c /\
    ctl c = Idle /\
    is_paused (self c) = true /\
    is_playing (self c) = false /\
    ~ paused_implies_playing (self c).
Proof.
  eexists. split; [vm_compute; reflexivity|]. split.
  - exists true, song, "song.mid"%string, race_schedule.
    split; [|vm_compute; reflexivity].
    split; [discriminate | reflexivity].
  - split; [reflexivity|]. split; [reflexivity|]. split; [reflexivity|].
    intros H. discriminate (H eq_refl).
Qed.

Lemma perform_preserves_paused (op : operation) (s : MIDIPlayer) :
  paused_implies_playing s -> paused_implies_playing (perform op s).
Proof.
  unfold paused_implies_playing. open_player s. intros Hp.
  cbn [is_paused is_playing] in Hp.
  destruct op; run_py; repeat split_test; run_py; auto; discriminate.
Qed.

(** C8, amended.  [is_paused] implies [is_playing] in a fresh player, and
    each operation run to completion without interleaving ([load_midi_file],
    [set_bpm], [play], [pause], [resume], [stop], [seek], [get_status],
    the start of the worker and each of its ticks) preserves it; so it
    holds after any sequence of such operations. *)
Theorem paused_implies_playing_sequential :
  (forall audio, paused_implies_playing (init audio)) /\
  (forall op s,
      paused_implies_playing s -> paused_implies_playing (perform op s)) /\
  (forall (ops : list operation) (audio : bool),
      paused_implies_playing
        (fold_left (fun s op => perform op s) ops (init audio))).
Proof.
  split; [intros audio H; discriminate H|].
  split; [exact perform_preserves_paused|].
  intros ops audio.
  assert (H : paused_implies_playing (init audio))
    by (intros H; discriminate H).
  revert H. generalize (init audio).
  induction ops as [|op ops IH]; intros s Hs; [exact Hs|].
  cbn [fold_left]. apply IH. now apply perform_preserves_paused.
Qed.

Lemma paused_implies_playing_sequential_witness :
  paused_implies_playing (perform (OpPause 3) started) /\
  is_paused (perform (OpPause 3) started) = true /\
  is_playing (perform (OpPause 3) started) = true.
Proof.
  split; [|split; reflexivity].
  apply (proj1 (proj2 paused_implies_playing_sequential) (OpPause 3) started).
  intros _. reflexivity.
Defined.

(** C9, as stated, fails: no lock is taken.  After [torn_schedule] the
    reference instant already has its new value, [is_paused] still the
    old one, and the worker executes lines 131 and 132 there, reading
    the old [is_paused]. *)
Lemma tick_inside_resume :
  (exists c c',
      run torn_schedule (initial true song "song.mid") = Some c /\
      ctl c = R162 /\
      half_applied (ctl c) = true /\
      start_time paused_at_3 == 0 /\
      start_time (self c) == 5 /\
      is_paused (self c) = true /\
      play_thread (self c) = Some (L131 (10 * (120 / 120))) /\
      run [Wrk 8; Wrk 8] c = Some c' /\
      play_thread (self c') = Some (L143 (10 * (120 / 120)))) /\
  ~ mutually_exclusive.
Proof.
  split.
  - do 2 eexists. split; [vm_compute; reflexivity|].
    do 6 (split; [reflexivity|]).
    split; [vm_compute; reflexivity | reflexivity].
  - intros H.
    assert (Hc : exists c,
               run torn_schedule (initial true song "song.mid") = Some c /\
               ctl c = R162 /\ worker_alive (self c) = true).
    { eexists. split; [vm_compute; reflexivity|]. split; reflexivity. }
    destruct Hc as [c [Hrun [Hctl Halive]]].
    assert (Hr : conc_reachable c).
    { exists true, song, "song.mid"%string, torn_schedule.
      split; [|exact Hrun]. split; [discriminate | reflexivity]. }
    specialize (H c 8 Hr). rewrite Hctl in H. specialize (H eq_refl).
    unfold step in H. rewrite Halive in H. discriminate H.
Qed.

(** C9, amended.  The player takes no lock: whenever the worker thread is
    alive it can execute its next line, wherever the command thread is,
    also between two assignments of [pause], [resume] or [stop].  In
    particular, in a paused player whose worker is at the head of its
    loop, a tick can run between line 161 and line 162 of [resume]: it
    sees the shifted [start_time] together with the old [is_paused],
    skips the position update, and the player ends in the state an
    uninterrupted [resume] produces. *)
Theorem worker_runs_inside_commands :
  forall (c : config) (now : Q),
    worker_alive (self c) = true ->
    (exists c',
        step (Wrk now) c = Some c' /\
        ctl c' = ctl c /\
        self c' = worker_step now (self c)) /\
    (forall (total t : Q),
        ctl c = Idle ->
        is_playing (self c) = true ->
        is_paused (self c) = true ->
        play_thread (self c) = Some (L131 total) ->
        exists c1 c2,
          run [Call CallResume; Ctl t; Ctl t] c = Some c1 /\
          half_applied (ctl c1) = true /\
          is_paused (self c1) = true /\
          start_time (self c1) =
            start_time (self c) + (t - pause_time (self c)) /\
          run [Wrk now; Wrk now; Wrk now; Ctl t; Ctl t] c1 = Some c2 /\
          ctl c2 = Idle /\
          self c2 = state_of (resume t (self c))).
Proof.
  intros c now Halive. split.
  - unfold step. rewrite Halive. eexists. repeat split.
  - intros total t Hidle Hplaying Hpaused Hth.
    destruct c as [s pc lg]. cbn [self ctl log] in *. subst pc.
    open_player s. cbn [is_playing is_paused play_thread] in *. subst.
    destruct audio; do 2 eexists; run_lines; repeat split.
Qed.

Lemma worker_runs_inside_commands_witness :
  exists c',
    step (Wrk 8) (mkConfig paused_at_3 R162 []) = Some c' /\
    ctl c' = R162 /\
    self c' = worker_step 8 paused_at_3.
Proof.
  exact (proj1 (worker_runs_inside_commands
                  (mkConfig paused_at_3 R162 []) 8 eq_refl)).
Defined.

Lemma step_preserves_tempo (a : action) (c c' : config) :
  step a c = Some c' -> tempo_ok (self c) -> tempo_ok (self c').
Proof.
  unfold tempo_ok. destruct c as [s pc lg]. open_player s.
  cbn [self original_bpm current_bpm]. intros Hstep [Ho Hc].
  destruct a as [cmd | now | now].
  - destruct pc; try discriminate Hstep.
    destruct cmd; run_lines; repeat split_hyp Hstep;
      injection Hstep as <-; run_lines; inv_facts; auto.
  - destruct pc; run_lines; repeat split_hyp Hstep;
      try discriminate Hstep; injection Hstep as <-; run_lines; auto.
  - destruct th as [w|]; [destruct w|]; run_lines;
      repeat split_hyp Hstep; try discriminate Hstep;
      injection Hstep as <-; run_lines; auto.
Qed.

Lemma run_preserves_tempo (sched : list action) (c c' : config) :
  run sched c = Some c' -> tempo_ok (self c) -> tempo_ok (self c').
Proof.
  revert c. induction sched as [|a sched IH]; intros c Hrun Hok.
  - injection Hrun as <-. exact Hok.
  - cbn [run] in Hrun. destruct (step a c) as [c1|] eqn:Hstep;
      [|discriminate Hrun].
    apply (IH c1 Hrun). exact (step_preserves_tempo a c c1 Hstep Hok).
Qed.

Lemma initial_tempo (audio : bool) (m : PrettyMIDI) (path : string) :
  midi_ok m -> tempo_ok (self (initial audio m path)).
Proof.
  intros Hm. pose proof (base_tempo_pos m Hm) as Hpos.
  unfold base_tempo in Hpos. unfold tempo_ok, initial, init.
  cbn [self]. run_py.
  destruct (get_tempo_changes m); run_py; split; exact Hpos.
Qed.

(** For tempi that are numbers: when every source that loads reports
    no tempo or a positive first tempo, [current_bpm] (and
    [original_bpm]) are positive in every state reached from a fresh
    player, by whole operations and also by interleaved lines of the
    command thread and the worker; so [get_tempo_ratio] returns the
    ratio and never raises [ZeroDivisionError] there, and [seek],
    [get_status] and the worker (line 128) compute their duration with
    it. *)
Lemma current_bpm_positive :
  (forall s,
      reachable s ->
      0 < current_bpm s /\
      0 < original_bpm s /\
      get_tempo_ratio s = Returns (original_bpm s / current_bpm s) s [] /\
      (exists st, get_status s = Returns st s []) /\
      (forall bk now x,
          exists r s' fx, seek bk now x s = Returns r s' fx)) /\
  (forall c,
      conc_reachable c ->
      0 < current_bpm (self c) /\
      get_tempo_ratio (self c) =
        Returns (original_bpm (self c) / current_bpm (self c)) (self c) [] /\
      (forall now,
          play_thread (self c) = Some L128 ->
          play_thread (worker_step now (self c)) =
          Some (L129 (original_bpm (self c) / current_bpm (self c))))).
Proof.
  assert (Hratio : forall s, tempo_ok s ->
            get_tempo_ratio s = Returns (original_bpm s / current_bpm s) s []).
  { intros s [_ Hc]. open_player s. run_py.
    rewrite (Qeq_bool_pos cb Hc). reflexivity. }
  split.
  - intros s Hr. destruct (reachable_inv s Hr) as [Hok _ _ _ _].
    pose proof (Hratio s Hok) as Hgr. destruct Hok as [Ho Hc].
    split; [exact Hc|]. split; [exact Ho|]. split; [exact Hgr|].
    clear Hr Hgr. open_player s. cbn [current_bpm] in Hc.
    pose proof (Qeq_bool_pos cb Hc) as Hz. split.
    + destruct md; run_py; rewrite ?Hz; eexists; reflexivity.
    + intros bk now x. destruct md; run_py; rewrite ?Hz;
        repeat split_test; do 3 eexists; reflexivity.
  - intros c [audio [m [path [sched [Hm Hrun]]]]].
    pose proof (run_preserves_tempo sched _ c Hrun
                  (initial_tempo audio m path Hm)) as Hok.
    split; [exact (proj2 Hok)|]. split; [exact (Hratio _ Hok)|].
    intros now Hth. unfold worker_step. rewrite Hth, (Hratio _ Hok).
    reflexivity.
Qed.

Lemma current_bpm_positive_witness :
  0 < current_bpm (perform (OpSetBpm 60) loaded) /\
  get_tempo_ratio (perform (OpSetBpm 60) loaded) =
    Returns (120 / 60) (perform (OpSetBpm 60) loaded) [].
Proof.
  assert (Hr : reachable (perform (OpSetBpm 60) loaded)).
  { apply reach_step; [|exact I].
    apply (reach_step (OpLoad song_disk "song.mid") (init true)
             (reach_init true)).
    intros p m Hp. injection Hp as <-. split; [discriminate | reflexivity]. }
  destruct (proj1 current_bpm_positive _ Hr) as [H1 [_ [H2 _]]].
  split; [exact H1 | exact H2].
Defined.

(** C10.  [set_bpm] lets a tempo that is not a number through:
    [nan <= 0] is false, so line 65 does not raise and line 67 stores
    NaN in [current_bpm], which then is not positive.  On the floats
    that are numbers the guard is the one of [set_bpm] above: a tempo
    [<= 0] raises [ValueError] and leaves the player as it was, every
    other tempo is stored. *)
Theorem set_bpm_accepts_nan :
  set_bpm_float NaN = inr NaN /\
  float_lt (Finite 0) NaN = false /\
  (forall (q : Q) (s : MIDIPlayer),
      (q <= 0 ->
       set_bpm_float (Finite q) = inl ValueError /\
       set_bpm q s = Raises ValueError s []) /\
      (0 < q ->
       set_bpm_float (Finite q) = inr (Finite q) /\
       set_bpm q s = Returns tt (set_current_bpm q s) [])).
Proof.
  split; [reflexivity|]. split; [reflexivity|].
  intros q s. unfold set_bpm_float, float_le. split; intros H.
  - apply Qle_bool_iff in H. open_player s. run_py. rewrite H.
    split; reflexivity.
  - assert (E : Qle_bool q 0 = false).
    { destruct (Qle_bool q 0) eqn:E; [|reflexivity].
      apply Qle_bool_iff in E. exfalso. exact (Qlt_not_le _ _ H E). }
    open_player s. run_py. rewrite E. split; reflexivity.
Qed.

Lemma set_bpm_accepts_nan_witness :
  set_bpm_float (Finite (-5)) = inl ValueError /\
  set_bpm (-5) loaded = Raises ValueError loaded [].
Proof.
  exact (proj1 (proj2 (proj2 set_bpm_accepts_nan) (-5) loaded)
           ltac:(discriminate)).
Defined.

(** * Further properties of the player *)

(** X1.  [pause] on a player that is playing and not paused returns
    [True], sets [is_paused], records the clock in [pause_time] and
    pauses the mixer when audio is enabled; a second [pause] right
    after, at any clock, returns [False] and changes nothing, so
    [pause_time] keeps the first instant.  On a player that is not
    playing, or already paused, [pause] returns [False] and changes
    nothing. *)
Theorem pause_twice :
  forall (now later : Q) (s : MIDIPlayer),
    (is_playing s = true -> is_paused s = false ->
     exists s',
       pause now s =
         Returns true s' (if audio_enabled s then [MusicPause] else []) /\
       s' = set_pause_time now (set_is_paused true s) /\
       pause later s' = Returns false s' [] /\
       pause_time s' = now) /\
    (is_playing s = false \/ is_paused s = true ->
     pause now s = Returns false s []).
Proof.
  intros now later s. open_player s. run_py. split.
  - intros -> ->. destruct audio; eexists; repeat split.
  - intros [-> | ->]; [reflexivity | destruct playing; reflexivity].
Qed.

Lemma pause_twice_witness :
  exists s',
    pause 3 started = Returns true s' [MusicPause] /\
    pause 4 s' = Returns false s' [] /\
    pause_time s' = 3.
Proof.
  destruct (proj1 (pause_twice 3 4 started) eq_refl eq_refl)
    as [s' [E [_ [A B]]]].
  exists s'. repeat split; assumption.
Defined.

(** X2.  [resume] on a player that is not playing, or not paused,
    returns [False] and changes nothing; in particular [resume] right
    after a successful [resume] does nothing, so the reference instant is
    shifted once per pause. *)
Theorem resume_needs_pause :
  forall (now later : Q) (s : MIDIPlayer),
    (is_playing s = false \/ is_paused s = false ->
     resume now s = Returns false s []) /\
    (is_playing s = true -> is_paused s = true ->
     resume later (state_of (resume now s)) =
       Returns false (state_of (resume now s)) []).
Proof.
  intros now later s. open_player s. run_py. split.
  - intros [-> | ->]; [reflexivity | destruct playing; reflexivity].
  - intros -> ->. destruct audio; reflexivity.
Qed.

Lemma resume_needs_pause_witness :
  resume 5 started = Returns false started [] /\
  resume 9 (state_of (resume 8 paused_at_3)) =
    Returns false (state_of (resume 8 paused_at_3)) [].
Proof.
  destruct (resume_needs_pause 5 9 started) as [H1 _].
  destruct (resume_needs_pause 8 9 paused_at_3) as [_ H2].
  split; [apply H1; right; reflexivity | exact (H2 eq_refl eq_refl)].
Defined.

Lemma pause_resume_step (tp tr : Q) (s : MIDIPlayer) :
  is_playing s = true -> is_paused s = false ->
  let s' := state_of (resume tr (state_of (pause tp s))) in
  is_playing s' = true /\ is_paused s' = false /\
  start_time s' = start_time s + (tr - tp) /\
  current_position s' = current_position s /\
  play_thread s' = play_thread s.
Proof.
  open_player s. run_py. intros -> ->. destruct audio; repeat split.
Qed.

(** X3.  Any number of [pause]/[resume] cycles on a playing player leave
    it playing and not paused, with [current_position] and the worker
    untouched, and move [start_time] forward by the total time spent
    paused: the position [now - start_time] is the one without the
    pauses, less that total. *)
Theorem pause_resume_cycles :
  forall (cycles : list (Q * Q)) (s : MIDIPlayer),
    is_playing s = true -> is_paused s = false ->
    let s' := pause_resume cycles s in
    is_playing s' = true /\
    is_paused s' = false /\
    current_position s' = current_position s /\
    play_thread s' = play_thread s /\
    start_time s' == start_time s + paused_total cycles /\
    forall now,
      now - start_time s' == (now - start_time s) - paused_total cycles.
Proof.
  intros cycles. induction cycles as [|[tp tr] cycles IH]; intros s Hp Hq.
  - unfold pause_resume, paused_total. cbn [fold_left fold_right].
    split; [exact Hp|]. split; [exact Hq|]. do 2 (split; [reflexivity|]).
    split; [|intros now]; ring.
  - destruct (pause_resume_step tp tr s Hp Hq) as [Hp1 [Hq1 [Hst [Hpos Hth]]]].
    specialize (IH _ Hp1 Hq1). cbv zeta in IH.
    destruct IH as [A [B [C [D [E F]]]]].
    change (pause_resume ((tp, tr) :: cycles) s)
      with (pause_resume cycles
              (state_of (resume tr (state_of (pause tp s))))).
    change (paused_total ((tp, tr) :: cycles))
      with ((tr - tp) + paused_total cycles).
    split; [exact A|]. split; [exact B|].
    split; [rewrite C; exact Hpos|]. split; [rewrite D; exact Hth|].
    split; [rewrite E, Hst; ring|].
    intros now. rewrite E, Hst. ring.
Qed.

Lemma pause_resume_cycles_witness :
  is_playing (pause_resume [(3, 8); (9, 11)] started) = true /\
  20 - start_time (pause_resume [(3, 8); (9, 11)] started) ==
    (20 - start_time started) - paused_total [(3, 8); (9, 11)].
Proof.
  destruct (pause_resume_cycles [(3, 8); (9, 11)] started eq_refl eq_refl)
    as [A [_ [_ [_ [_ F]]]]].
  split; [exact A | exact (F 20)].
Defined.

(** X4.  While the player is playing and not paused, a tick sets
    [current_position] to [now - start_time], and of two ticks in a row
    at non-decreasing clocks the second never moves [current_position]
    back (if the first tick found the end of the track, the second
    changes nothing).  A tick on a paused player changes nothing. *)
Theorem ticks_are_monotone :
  forall (total now1 now2 : Q) (s : MIDIPlayer),
    play_thread s = Some (L131 total) ->
    is_playing s = true ->
    (is_paused s = false ->
     now1 <= now2 ->
     current_position (ticks [now1] s) = now1 - start_time s /\
     current_position (ticks [now1] s) <=
       current_position (ticks [now1; now2] s)) /\
    (is_paused s = true -> play_worker_tick now1 s = Returns tt s []).
Proof.
  intros total now1 now2 s Hth Hp. open_player s.
  cbn [play_thread is_playing] in Hth, Hp. subst. unfold ticks.
  cbn [fold_left]. split.
  - cbn [is_paused]. intros -> Hle. run_py.
    destruct (Qle_bool total (now1 - st)) eqn:H1; run_py.
    + split; [reflexivity | apply Qle_refl].
    + destruct (Qle_bool total (now2 - st)) eqn:H2; run_py;
        (split; [reflexivity|]);
        unfold Qminus; apply Qplus_le_l; exact Hle.
  - cbn [is_paused]. intros ->. reflexivity.
Qed.

Lemma ticks_are_monotone_witness :
  current_position (ticks [3] started) = 3 - start_time started /\
  current_position (ticks [3] started) <=
    current_position (ticks [3; 4] started).
Proof.
  apply (proj1 (ticks_are_monotone (10 * (120 / 120)) 3 4 started
                  eq_refl eq_refl)); [reflexivity | discriminate].
Defined.

(** X5.  Once [stop] has returned on a playing player, however the
    lines of the worker were interleaved with it ([join] having waited
    for the worker), the worker is not alive and neither thread has a
    line left to run; no start or tick of the worker changes the player
    any more: [is_playing] stays false and [current_position] stays what
    it was when [stop] returned, until the next [play]. *)
Theorem no_tick_after_stop :
  forall (s : MIDIPlayer) (lg : list effect) (sched : list action)
         (c' : config) (clocks : list Q),
    is_playing s = true ->
    forallb is_line sched = true ->
    run (Call CallStop :: sched) (mkConfig s Idle lg) = Some c' ->
    ctl c' = Idle ->
    worker_alive (self c') = false /\
    (forall a, is_line a = true -> step a c' = None) /\
    play_worker_begin (self c') = Returns tt (self c') [] /\
    ticks clocks (self c') = self c' /\
    is_playing (ticks clocks (self c')) = false.
Proof.
  intros s lg sched c' clocks Hp Hl H Hc.
  destruct (stop_ends_stopped sched s lg c' Hp Hl H Hc) as [Hpl [_ Ha]].
  destruct c' as [s1 pc lg']. cbn [ctl self log] in *. subst pc.
  assert (Hdead : forall now, play_worker_tick now s1 = Returns tt s1 []).
  { intros now. clear H. open_player s1. run_py.
    destruct th as [[]|]; try discriminate Ha; reflexivity. }
  assert (Hticks : ticks clocks s1 = s1).
  { clear H. induction clocks as [|now clocks IH]; [reflexivity|].
    unfold ticks in *. cbn [fold_left]. rewrite (Hdead now).
    cbn [state_of]. exact IH. }
  split; [exact Ha|]. split; [|split; [|split]].
  - intros [cmd | now | now] Ha'; [discriminate Ha' | reflexivity |].
    cbn [step self]. rewrite Ha. reflexivity.
  - clear H Hdead Hticks. open_player s1. run_py.
    destruct th as [[]|]; try discriminate Ha; reflexivity.
  - exact Hticks.
  - rewrite Hticks. exact Hpl.
Qed.

Lemma no_tick_after_stop_witness :
  exists c',
    run stale_schedule (initial true song "song.mid") = Some c' /\
    ticks [6; 7; 60] (self c') = self c' /\
    is_playing (ticks [6; 7; 60] (self c')) = false /\
    current_position (ticks [6; 7; 60] (self c')) == 5.
Proof.
  eexists. split; [vm_compute; reflexivity|].
  destruct (no_tick_after_stop
              (worker_steps 3 5 started)
              [MusicLoad "song.mid"; MusicPlay; ThreadStart]
              [Ctl 5; Ctl 5; Ctl 5; Ctl 5; Ctl 5; Wrk 5; Wrk 5; Wrk 5; Wrk 5;
               Ctl 5]
              _ [6; 7; 60] eq_refl eq_refl
              ltac:(vm_compute; reflexivity) eq_refl)
    as [_ [_ [_ [A B]]]].
  split; [exact A|]. split; [exact B|]. rewrite A. reflexivity.
Defined.



(** X7.  [load_midi_file] never raises and makes no call.  On a missing
    file it returns [False] and changes nothing.  When the file exists
    but cannot be parsed it returns [False] having already replaced
    [current_file_path]: the source and the tempi are the old ones, and
    the next [play] hands the new, unparsable path to the mixer.  It
    returns [True] exactly when the file parses, and in no case touches
    [is_playing], [is_paused], [current_position] or the worker. *)
Theorem load_failure_modes :
  forall (disk : string -> file) (file_path : string) (s : MIDIPlayer),
    (disk file_path = Missing ->
     load_midi_file disk file_path s = Returns false s []) /\
    (disk file_path = Unreadable ->
     load_midi_file disk file_path s =
       Returns false (set_current_file_path (Some file_path) s) [] /\
     forall (now : Q) (c : ascii) (rest : string),
       file_path = String c rest ->
       midi_data s <> None -> is_playing s = false ->
       audio_enabled s = true ->
       effects_of
         (play Plays now 0 (state_of (load_midi_file disk file_path s))) =
       [MusicLoad file_path; MusicPlay; ThreadStart]) /\
    (exists b s',
        load_midi_file disk file_path s = Returns b s' [] /\
        (b = true <-> exists m, disk file_path = Parsed m) /\
        is_playing s' = is_playing s /\
        is_paused s' = is_paused s /\
        current_position s' = current_position s /\
        play_thread s' = play_thread s).
Proof.
  intros disk file_path s. open_player s. run_py. split; [|split].
  - intros ->. reflexivity.
  - intros ->. split; [reflexivity|].
    intros now c rest -> Hmd -> ->. run_py.
    destruct md; [reflexivity | congruence].
  - destruct (disk file_path) as [| |m] eqn:Hd; run_py.
    + do 2 eexists. split; [reflexivity|]. repeat split; try discriminate.
      intros [m Hm]. discriminate Hm.
    + do 2 eexists. split; [reflexivity|]. repeat split; try discriminate.
      intros [m Hm]. discriminate Hm.
    + destruct (get_tempo_changes m); run_py;
        (do 2 eexists; split; [reflexivity|]); repeat split;
        exists m; reflexivity.
Qed.

Lemma load_failure_modes_witness :
  load_midi_file (fun _ => Missing) "gone.mid" loaded =
    Returns false loaded [] /\
  effects_of
    (play Plays 0 0
       (state_of (load_midi_file (fun _ => Unreadable) "bad.mid" loaded))) =
  [MusicLoad "bad.mid"; MusicPlay; ThreadStart].
Proof.
  destruct (load_failure_modes (fun _ => Missing) "gone.mid" loaded)
    as [H1 _].
  destruct (load_failure_modes (fun _ => Unreadable) "bad.mid" loaded)
    as [_ [H2 _]].
  split; [exact (H1 eq_refl)|].
  apply (proj2 (H2 eq_refl) 0 "b"%char "ad.mid"%string);
    [reflexivity | discriminate | reflexivity | reflexivity].
Defined.

(** X8.  With a source loaded and positive tempi, [seek] returns
    [False] exactly on a position below 0 or above the duration that
    [get_status] reports, so 0 and that duration themselves are
    accepted; [get_status] changes nothing and makes no call.  The test
    of line 215 is made of two comparisons: a position that is NaN is
    not refused. *)
Theorem seek_accepts_the_reported_duration :
  forall (bk : backend) (now x : Q) (s : MIDIPlayer) (m : PrettyMIDI),
    midi_data s = Some m ->
    tempo_ok s ->
    exists st r s' fx,
      get_status s = Returns st s [] /\
      st_duration st = scaled_duration m s /\
      st_file_loaded st = true /\
      seek bk now x s = Returns r s' fx /\
      r = negb (seek_rejects (Finite x) (Finite (st_duration st))) /\
      (r = false <-> x < 0 \/ st_duration st < x) /\
      (forall d, seek_rejects NaN d = false).
Proof.
  intros bk now x s m Hmd [Ho Hc]. unfold scaled_duration.
  open_player s. run_py. subst. rewrite (Qeq_bool_pos cb Hc).
  unfold seek_rejects, float_lt.
  set (D := get_end_time m * (ob / cb)).
  destruct (Qlt_bool x 0) eqn:H0.
  - do 4 eexists. do 4 (split; [reflexivity|]). cbn [st_duration].
    fold D. rewrite ?H0. split; [reflexivity|].
    split; [|intros []; reflexivity].
    split; [|reflexivity]. intros _. left. apply Qlt_bool_iff. exact H0.
  - destruct (Qlt_bool D x) eqn:HD.
    + do 4 eexists. do 4 (split; [reflexivity|]). cbn [st_duration].
      fold D. rewrite ?H0, ?HD. split; [reflexivity|].
      split; [|intros []; reflexivity].
      split; [|reflexivity]. intros _. right. apply Qlt_bool_iff. exact HD.
    + pose proof (proj1 (Qlt_bool_false _ _) H0) as H0'.
      pose proof (proj1 (Qlt_bool_false _ _) HD) as HD'.
      repeat split_test;
        (do 4 eexists; do 4 (split; [reflexivity|]); cbn [st_duration];
         fold D; rewrite ?H0, ?HD; split; [reflexivity|];
         split; [|intros []; reflexivity];
         split; [discriminate|];
         intros [H | H]; exfalso;
         [exact (Qlt_not_le _ _ H H0') | exact (Qlt_not_le _ _ H HD')]).
Qed.

Lemma seek_accepts_the_reported_duration_witness :
  exists st r s' fx,
    get_status loaded = Returns st loaded [] /\
    st_duration st = scaled_duration song loaded /\
    seek Plays 0 11 loaded = Returns r s' fx /\
    (r = false <-> 11 < 0 \/ st_duration st < 11).
Proof.
  destruct (seek_accepts_the_reported_duration Plays 0 11 loaded song
              eq_refl (conj eq_refl eq_refl))
    as [st [r [s' [fx [A [B [_ [C [_ [D _]]]]]]]]]].
  exists st, r, s', fx.
  split; [exact A|]. split; [exact B|]. split; [exact C | exact D].
Defined.

(** X9.  A tempo set while the player is playing does not reach the
    running worker: [set_bpm] and a tick commute, the worker keeps the
    duration it captured when it began, and it stops the player when
    [now - start_time] reaches that duration, whatever the new tempo;
    the duration that [get_status] reports meanwhile follows the new
    tempo. *)
Theorem tempo_change_spares_running_worker :
  forall (bpm now total : Q) (s : MIDIPlayer) (m : PrettyMIDI),
    0 < bpm ->
    midi_data s = Some m ->
    play_thread s = Some (L131 total) ->
    let s' := state_of (set_bpm bpm s) in
    play_thread s' = Some (L131 total) /\
    state_of (play_worker_tick now s') =
      state_of (set_bpm bpm (state_of (play_worker_tick now s))) /\
    (is_playing s = true -> is_paused s = false ->
     total <= now - start_time s ->
     is_playing (state_of (play_worker_tick now s')) = false) /\
    (exists st,
        get_status s' = Returns st s' [] /\
        st_duration st = get_end_time m * (original_bpm s / bpm)).
Proof.
  intros bpm now total s m Hbpm Hmd Hth.
  assert (Hle : Qle_bool bpm 0 = false).
  { destruct (Qle_bool bpm 0) eqn:E; [|reflexivity].
    apply Qle_bool_iff in E. exfalso. exact (Qlt_not_le _ _ Hbpm E). }
  open_player s. cbn [play_thread midi_data] in Hth, Hmd. subst.
  run_py. rewrite Hle. run_py. rewrite (Qeq_bool_pos bpm Hbpm).
  split; [reflexivity|]. split; [|split].
  - repeat split_test; rewrite ?Hle; reflexivity.
  - intros -> -> Hend. apply Qle_bool_iff in Hend. rewrite Hend.
    reflexivity.
  - eexists. split; reflexivity.
Qed.

Lemma tempo_change_spares_running_worker_witness :
  is_playing
    (state_of (play_worker_tick 10 (state_of (set_bpm 60 started)))) =
  false /\
  exists st,
    get_status (state_of (set_bpm 60 started)) =
      Returns st (state_of (set_bpm 60 started)) [] /\
    st_duration st == 20.
Proof.
  destruct (tempo_change_spares_running_worker 60 10 (10 * (120 / 120))
              started song eq_refl eq_refl eq_refl)
    as [_ [_ [A [st [B C]]]]].
  split; [apply A; [reflexivity | reflexivity | discriminate]|].
  exists st. split; [exact B|]. rewrite C. reflexivity.
Defined.

(** X10.  Without a lock, [stop] can return with a position that is not
    0: when the worker has read the clock (line 134) and not yet stored
    the position (line 135) as [stop] starts, [stop] clears the position
    on line 174, the worker stores its stale reading while [stop] waits
    in [join], finds [is_playing] false and exits, and [stop] returns
    with [current_position] equal to that reading. *)
Theorem late_tick_overwrites_stop :
  forall (c : config) (now total current_time : Q),
    ctl c = Idle ->
    is_playing (self c) = true ->
    play_thread (self c) = Some (L135 total current_time) ->
    exists k c',
      run ([Call CallStop; Ctl now; Ctl now; Ctl now; Ctl now; Ctl now] ++
           repeat (Wrk now) k ++ [Ctl now]) c = Some c' /\
      ctl c' = Idle /\
      is_playing (self c') = false /\
      worker_alive (self c') = false /\
      current_position (self c') = current_time.
Proof.
  intros c now total current_time Hidle Hp Hth.
  destruct c as [s pc lg]. cbn [ctl self log] in *. subst pc.
  open_player s. cbn [is_playing play_thread] in *. subst.
  destruct (Qle_bool total current_time) eqn:Hend.
  - exists 3%nat. cbn [repeat app]. destruct audio; run_lines;
      rewrite ?Hend; run_lines; eexists; repeat split.
  - exists 4%nat. cbn [repeat app]. destruct audio; run_lines;
      rewrite ?Hend; run_lines; eexists; repeat split.
Qed.

Lemma late_tick_overwrites_stop_witness :
  exists k c',
    run ([Call CallStop; Ctl 5; Ctl 5; Ctl 5; Ctl 5; Ctl 5] ++
         repeat (Wrk 5) k ++ [Ctl 5])
        (mkConfig (worker_steps 3 5 playing_at_3) Idle []) = Some c' /\
    ctl c' = Idle /\
    is_playing (self c') = false /\
    current_position (self c') = 5 - start_time playing_at_3.
Proof.
  destruct (late_tick_overwrites_stop
              (mkConfig (worker_steps 3 5 playing_at_3) Idle []) 5
              (10 * (120 / 120)) (5 - start_time playing_at_3)
              eq_refl eq_refl eq_refl)
    as [k [c' [A [B [C [_ D]]]]]].
  exists k, c'. repeat split; assumption.
Defined.

(** ** The file menu *)

Lemma midi_files_of_In (listing : list string) (f : string) :
  In f (midi_files_of listing) <->
  In f listing /\ (endswith f ".mid" = true \/ endswith f ".midi" = true).
Proof.
  unfold midi_files_of. rewrite filter_In, orb_true_iff. reflexivity.
Qed.

Lemma pick_In (midi_files : list string) (choice f : string) :
  pick midi_files choice = Picked f -> In f midi_files.
Proof.
  unfold pick.
  assert (Hname :
            match
              filter (fun f => contains (lower choice) (lower f)) midi_files
            with
            | [g] => Picked g
            | _ => AskAgain
            end = Picked f -> In f midi_files).
  { destruct (filter _ midi_files) as [|g [|h l]] eqn:E; try discriminate.
    intros [= ->].
    assert (Hin : In f (filter (fun f => contains (lower choice) (lower f))
                          midi_files))
      by (rewrite E; left; reflexivity).
    apply filter_In in Hin. exact (proj1 Hin). }
  destruct (str_isdigit choice).
  - destruct (isdigit choice); [|discriminate].
    destruct ((0 <=? int choice - 1)%Z &&
              (int choice - 1 <? Z.of_nat (List.length midi_files))%Z);
      [|exact Hname].
    destruct (nth_error midi_files (Z.to_nat (int choice - 1))) as [g|] eqn:En;
      [|discriminate].
    intros [= <-]. exact (nth_error_In _ _ En).
  - destruct (existsb (String.eqb choice) midi_files) eqn:E; [|exact Hname].
    intros [= <-]. apply existsb_exists in E. destruct E as [g [Hg Heq]].
    apply String.eqb_eq in Heq. subst g. exact Hg.
Qed.

Lemma choose_spec (midi_files : list string) (inputs : list console)
      (f : string) (rest : list console) :
  choose midi_files inputs = (Chosen f, rest) ->
  In f midi_files /\ exists consumed, inputs = consumed ++ rest.
Proof.
  revert rest. induction inputs as [|i inputs IH]; intros rest H.
  - discriminate H.
  - cbn [choose] in H. destruct i as [choice now bk | | now].
    + destruct (pick midi_files (strip choice)) as [g| |e] eqn:E.
      * injection H as -> ->. split; [exact (pick_In _ _ _ E)|].
        exists [Typed choice now bk]. reflexivity.
      * destruct (IH rest H) as [Hin [consumed ->]]. split; [exact Hin|].
        exists (Typed choice now bk :: consumed). reflexivity.
      * discriminate H.
    + discriminate H.
    + destruct (IH rest H) as [Hin [consumed ->]]. split; [exact Hin|].
      exists (Pass now :: consumed). reflexivity.
Qed.

(** X11.  Whatever [select_midi_file] returns is one of the files of the
    directory listing whose name ends in [.mid] or [.midi], and the
    input left to the caller is a suffix of the input given.  With no
    such file in the directory it returns [None] without reading any
    input. *)
Theorem selection_is_a_listed_midi_file :
  forall (listing : list string) (inputs : list console),
    (forall f rest,
        select_midi_file listing inputs = (Chosen f, rest) ->
        In f listing /\
        (endswith f ".mid" = true \/ endswith f ".midi" = true) /\
        exists consumed, inputs = consumed ++ rest) /\
    (midi_files_of listing = [] ->
     select_midi_file listing inputs = (NoFile, inputs)).
Proof.
  intros listing inputs. unfold select_midi_file. split.
  - intros f rest H.
    destruct (midi_files_of listing) as [|g l] eqn:E; [discriminate H|].
    destruct (choose_spec _ _ _ _ H) as [Hin Hrest].
    rewrite <- E in Hin. apply midi_files_of_In in Hin.
    destruct Hin as [Hl He]. repeat split; assumption.
  - intros ->. reflexivity.
Qed.

Lemma selection_is_a_listed_midi_file_witness :
  select_midi_file no_midi_listing [Typed "1" 0 Plays] =
    (NoFile, [Typed "1" 0 Plays]).
Proof.
  exact (proj2 (selection_is_a_listed_midi_file no_midi_listing
                  [Typed "1" 0 Plays]) eq_refl).
Defined.

Lemma endswith_not_all_digits (f suffix : string) :
  endswith f suffix = true -> all_digit_like suffix = false ->
  all_digit_like f = false.
Proof.
  intros H Hs. induction f as [|c r IH].
  - destruct suffix; [discriminate Hs | discriminate H].
  - cbn [endswith] in H. apply orb_true_iff in H. destruct H as [H | H].
    + apply String.eqb_eq in H. subst suffix. exact Hs.
    + cbn [all_digit_like]. rewrite (IH H). apply andb_false_r.
Qed.

Lemma midi_name_not_digits (listing : list string) (f : string) :
  In f (midi_files_of listing) -> str_isdigit f = false /\ f <> EmptyString.
Proof.
  intros H. apply midi_files_of_In in H. destruct H as [_ H].
  assert (Hd : all_digit_like f = false).
  { destruct H as [H | H];
      exact (endswith_not_all_digits f _ H eq_refl). }
  split.
  - destruct f; [reflexivity | exact Hd].
  - intros ->. discriminate Hd.
Qed.

Lemma is_digit_not_space (c : ascii) : is_digit c = true -> is_space c = false.
Proof.
  destruct c as [[] [] [] [] [] [] [] []]; vm_compute; intros H;
    first [reflexivity | discriminate H].
Qed.

Lemma rstrip_digits (s : string) : all_digits s = true -> rstrip s = s.
Proof.
  induction s as [|c r IH]; [reflexivity|].
  cbn [all_digits rstrip]. intros H. apply andb_true_iff in H.
  destruct H as [Hc Hr]. rewrite (IH Hr), (is_digit_not_space c Hc).
  destruct r; reflexivity.
Qed.

(** A number typed without white space is what [strip] returns. *)
Lemma strip_digits (s : string) : isdigit s = true -> strip s = s.
Proof.
  destruct s as [|c r]; [discriminate|]. cbn [isdigit]. intros H.
  unfold strip.
  assert (Hl : lstrip (String c r) = String c r).
  { cbn [all_digits] in H. apply andb_true_iff in H.
    cbn [lstrip]. rewrite (is_digit_not_space c (proj1 H)). reflexivity. }
  rewrite Hl. exact (rstrip_digits _ H).
Qed.

(** On decimal digits [str.isdigit] is true. *)
Lemma isdigit_str_isdigit (s : string) :
  isdigit s = true -> str_isdigit s = true.
Proof.
  destruct s as [|c r]; [discriminate|]. cbn [isdigit str_isdigit].
  generalize (String c r). clear c r.
  induction s as [|c r IH]; [reflexivity|].
  cbn [all_digits all_digit_like]. intros H. apply andb_true_iff in H.
  destruct H as [Hc Hr]. rewrite (IH Hr). unfold is_digit_like.
  rewrite Hc. reflexivity.
Qed.

(** X12.  A line that, once stripped of the white space at its ends
    (line 247), is the exact name of a listed MIDI file selects that
    file at once, also when the name is part of the names of other
    files.  So typing the name of a listed file selects it whenever the
    name itself neither begins nor ends with white space. *)
Theorem exact_name_is_selected :
  forall (listing : list string) (line f : string) (now : Q) (bk : backend)
         (rest : list console),
    In f (midi_files_of listing) ->
    strip line = f ->
    select_midi_file listing (Typed line now bk :: rest) = (Chosen f, rest).
Proof.
  intros listing line f now bk rest Hin Hline.
  destruct (midi_name_not_digits listing f Hin) as [Hd _].
  unfold select_midi_file.
  destruct (midi_files_of listing) as [|g l] eqn:E; [destruct Hin|].
  cbn [choose]. rewrite Hline. unfold pick. rewrite Hd.
  assert (Hex : existsb (String.eqb f) (g :: l) = true).
  { apply existsb_exists. exists f. split; [exact Hin|].
    apply String.eqb_refl. }
  rewrite Hex. reflexivity.
Qed.

Lemma exact_name_is_selected_witness :
  select_midi_file menu_listing [Typed "  a.mid " 0 Plays; CtrlC]
  = (Chosen "a.mid", [CtrlC]).
Proof.
  apply (exact_name_is_selected menu_listing "  a.mid "%string "a.mid"%string).
  - left. reflexivity.
  - reflexivity.
Defined.

(** X13.  Typing a number between 1 and the number of MIDI files
    selects the file shown under that number in the menu. *)
Theorem number_selects_menu_entry :
  forall (listing : list string) (choice : string) (now : Q) (bk : backend)
         (rest : list console),
    isdigit choice = true ->
    (1 <= int choice <= Z.of_nat (List.length (midi_files_of listing)))%Z ->
    exists f,
      nth_error (midi_files_of listing) (Z.to_nat (int choice - 1)) = Some f /\
      select_midi_file listing (Typed choice now bk :: rest) = (Chosen f, rest).
Proof.
  intros listing choice now bk rest Hd [Hlo Hhi].
  unfold select_midi_file.
  destruct (midi_files_of listing) as [|g l] eqn:E.
  - cbn in Hhi. lia.
  - set (files := g :: l) in *.
    destruct (nth_error files (Z.to_nat (int choice - 1))) as [f|] eqn:Hn.
    + exists f. split; [reflexivity|].
      cbn [choose]. rewrite (strip_digits _ Hd). unfold pick.
      rewrite (isdigit_str_isdigit _ Hd), Hd.
      assert (Hr : ((0 <=? int choice - 1) &&
                    (int choice - 1 <? Z.of_nat (List.length files)))%Z = true).
      { apply andb_true_iff. split; [apply Z.leb_le | apply Z.ltb_lt]; lia. }
      rewrite Hr, Hn. reflexivity.
    + apply nth_error_None in Hn. lia.
Qed.

Lemma number_selects_menu_entry_witness :
  exists f,
    nth_error (midi_files_of menu_listing)
              (Z.to_nat (int "2" - 1)) = Some f /\
    select_midi_file menu_listing
                     [Typed "2" 0 Plays] = (Chosen f, []).
Proof.
  apply (number_selects_menu_entry menu_listing
           "2" 0 Plays []); [reflexivity|].
  split; [discriminate | discriminate].
Defined.

Lemma startswith_empty (s : string) : startswith s EmptyString = true.
Proof. destruct s; reflexivity. Qed.

Lemma contains_empty (s : string) : contains EmptyString s = true.
Proof. destruct s; reflexivity. Qed.

(** X14.  An empty line selects the file when the directory has exactly
    one MIDI file (the empty string is part of every name); with two or
    more it selects nothing and the menu asks again. *)
Theorem empty_line_selects_the_only_file :
  forall (listing : list string) (now : Q) (bk : backend)
         (rest : list console),
    (forall f,
        midi_files_of listing = [f] ->
        select_midi_file listing (Typed "" now bk :: rest) =
        (Chosen f, rest)) /\
    (forall f g l,
        midi_files_of listing = f :: g :: l ->
        select_midi_file listing (Typed "" now bk :: rest) =
        select_midi_file listing rest).
Proof.
  intros listing now bk rest.
  assert (Hall : forall files,
             filter (fun f => contains "" (lower f)) files = files).
  { induction files as [|h files IH]; [reflexivity|].
    cbn [filter]. rewrite contains_empty, IH. reflexivity. }
  assert (Hnot : forall files,
             (forall f, In f files -> f <> EmptyString) ->
             existsb (String.eqb "") files = false).
  { induction files as [|h files IH]; intros H; [reflexivity|].
    cbn [existsb]. rewrite IH by (intros f Hf; apply H; right; exact Hf).
    destruct h; [|reflexivity].
    exfalso. apply (H EmptyString); [left|]; reflexivity. }
  assert (Hne : forall f, In f (midi_files_of listing) -> f <> EmptyString).
  { intros f Hf. exact (proj2 (midi_name_not_digits listing f Hf)). }
  unfold select_midi_file. split.
  - intros f E. rewrite E in *. cbn [choose strip lstrip rstrip]. unfold pick.
    cbn [str_isdigit lower]. rewrite (Hnot _ Hne), Hall. reflexivity.
  - intros f g l E. rewrite E in *. cbn [choose strip lstrip rstrip].
    unfold pick.
    cbn [str_isdigit lower]. rewrite (Hnot _ Hne), Hall. reflexivity.
Qed.

Lemma empty_line_selects_the_only_file_witness :
  select_midi_file single_listing [Typed "" 0 Plays] =
    (Chosen "only.mid", []).
Proof.
  exact (proj1 (empty_line_selects_the_only_file single_listing
                  0 Plays []) "only.mid"%string eq_refl).
Defined.

(** ** The command loop *)

Lemma perform_preserves_alive (op : operation) (s : MIDIPlayer) :
  alive_implies_playing s -> alive_implies_playing (perform op s).
Proof.
  unfold alive_implies_playing. open_player s. run_py. intros H.
  destruct op; run_py; repeat split_test; run_py; auto; try discriminate.
Qed.

Lemma perform_preserves_source (op : operation) (s : MIDIPlayer) :
  midi_data s <> None -> midi_data (perform op s) <> None.
Proof.
  open_player s. run_py. intros H.
  destruct op; run_py; repeat split_test; run_py; auto; discriminate.
Qed.

Lemma perform_preserves_loop_inv (op : operation) (s : MIDIPlayer) :
  op_ok op -> loop_inv s -> loop_inv (perform op s).
Proof.
  intros Hok [Hi [Ha Hm]]. split; [|split].
  - now apply perform_preserves_inv.
  - now apply perform_preserves_alive.
  - now apply perform_preserves_source.
Qed.

Lemma stop_performs (s : MIDIPlayer) :
  exists b fx, stop s = Returns b (perform OpStop s) fx /\
               is_playing (perform OpStop s) = false.
Proof.
  open_player s. run_py.
  repeat split_test; (do 2 eexists; split; reflexivity).
Qed.

Lemma toggle_performs (bk : backend) (now : Q) (s : MIDIPlayer) :
  exists op fx, toggle bk now s = Returns tt (perform op s) fx /\ op_ok op.
Proof.
  destruct (is_playing s) eqn:Hp; [destruct (is_paused s) eqn:Hq|].
  - exists (OpResume now). open_player s. cbn [is_playing is_paused] in *.
    subst. unfold toggle. run_py. repeat split_test;
      (eexists; split; [reflexivity | exact I]).
  - exists (OpPause now). open_player s. cbn [is_playing is_paused] in *.
    subst. unfold toggle. run_py. repeat split_test;
      (eexists; split; [reflexivity | exact I]).
  - exists (OpPlay bk now 0). open_player s. cbn [is_playing] in *.
    subst. unfold toggle. run_py. repeat split_test;
      (eexists; split; [reflexivity | exact I]).
Qed.

Lemma bpm_command_performs (env : environment) (command : string)
      (s : MIDIPlayer) :
  bpm_command env command s =
  Returns tt
    (match env_float env command with
     | Some bpm => if Qle_bool bpm 0 then s else set_current_bpm bpm s
     | None => s
     end) [] /\
  exists op, op_ok op /\
             state_of (bpm_command env command s) = perform op s.
Proof.
  unfold bpm_command. destruct (env_float env command) as [bpm|].
  - open_player s. run_py. destruct (Qle_bool bpm 0) eqn:E.
    + split; [reflexivity|]. exists (OpSetBpm bpm). split; [exact I|].
      cbn. run_py. rewrite E. reflexivity.
    + split; [reflexivity|]. exists (OpSetBpm bpm). split; [exact I|].
      cbn. run_py. rewrite E. reflexivity.
  - split; [reflexivity|]. exists OpStatus. split; [exact I|].
    open_player s. run_py. repeat split_test; reflexivity.
Qed.

Lemma get_status_performs (s : MIDIPlayer) :
  tempo_ok s -> exists st, get_status s = Returns st s [].
Proof.
  intros [_ Hc]. open_player s. cbn [current_bpm] in Hc.
  pose proof (Qeq_bool_pos cb Hc) as Hz.
  destruct md; run_py; rewrite ?Hz; eexists; reflexivity.
Qed.

Lemma worker_pass_performs (now : Q) (s : MIDIPlayer) :
  exists op, op_ok op /\ state_of (worker_pass now s) = perform op s.
Proof.
  destruct (play_thread s) as [[]|] eqn:Hth;
    [ exists OpBegin | exists (OpTick now) .. ];
    (split; [exact I|]);
    open_player s; cbn [play_thread] in Hth; subst;
    unfold worker_pass; run_py; repeat split_test; reflexivity.
Qed.

Lemma load_performs (disk : string -> file) (f : string) (s : MIDIPlayer) :
  exists b, load_midi_file disk f s = Returns b (perform (OpLoad disk f) s) []
            /\ (b = true -> midi_data (perform (OpLoad disk f) s) <> None).
Proof.
  open_player s. run_py.
  destruct (disk f) as [| |m]; run_py;
    try (exists false; split; [reflexivity | discriminate]).
  destruct (get_tempo_changes m); run_py;
    (exists true; split; [reflexivity | discriminate]).
Qed.

(** What every run of the loop from a state of [loop_inv] ends with. *)
Definition ends_well (fx : list effect) (r : run_of_main) : Prop :=
  loop_inv (final r) /\
  (how r = Quit \/ how r = EndOfFile \/ how r = Uncaught ValueError) /\
  (how r = Quit -> is_playing (final r) = false) /\
  exists more, calls r = fx ++ more.

(** [ValueError] is the only exception of the menu. *)
Lemma pick_raises (midi_files : list string) (choice : string) (e : exn) :
  pick midi_files choice = PickRaises e ->
  e = ValueError /\ str_isdigit choice = true /\ isdigit choice = false.
Proof.
  unfold pick.
  assert (Hname : forall l : list string,
             match l with [g] => Picked g | _ => AskAgain end
             <> PickRaises e).
  { intros [|g [|h l]]; discriminate. }
  destruct (str_isdigit choice).
  - destruct (isdigit choice).
    + destruct ((0 <=? int choice - 1)%Z &&
                (int choice - 1 <? Z.of_nat (List.length midi_files))%Z).
      * destruct (nth_error midi_files (Z.to_nat (int choice - 1)));
          discriminate.
      * intros H. destruct (Hname _ H).
    + intros [= <-]. repeat split.
  - destruct (existsb (String.eqb choice) midi_files); [discriminate|].
    intros H. destruct (Hname _ H).
Qed.

Lemma ends_well_more (fx more : list effect) (r : run_of_main) :
  ends_well (fx ++ more) r -> ends_well fx r.
Proof.
  intros [A [B [C [more' D]]]].
  split; [exact A|]. split; [exact B|]. split; [exact C|].
  exists (more ++ more'). rewrite D. symmetry. apply app_assoc.
Qed.

Lemma command_loop_ends_well (env : environment) :
  disk_ok (env_disk env) ->
  forall (inputs : list console) (md : mode) (s : MIDIPlayer)
         (fx : list effect),
    loop_inv s -> ends_well fx (command_loop env md inputs s fx).
Proof.
  intros Hdisk. induction inputs as [|i inputs IH]; intros md s fx Hs.
  - cbn [command_loop]. split; [exact Hs|].
    split; [right; left; reflexivity|].
    split; [discriminate|]. exists []. symmetry. apply app_nil_r.
  - assert (Hquit : ends_well fx
              (after (stop s) fx (fun s' fx' => mkRun s' fx' Quit))).
    { destruct (stop_performs s) as [b [fx' [E Hp]]]. rewrite E.
      unfold ends_well. cbn [after final how calls].
      pose proof (perform_preserves_loop_inv OpStop s I Hs) as Hs'.
      split; [exact Hs'|]. split; [left; reflexivity|]. split.
      - intros _. exact Hp.
      - exists fx'. reflexivity. }
    assert (Hgo : forall md' A (o : outcome A) op,
               op_ok op -> (exists a fx', o = Returns a (perform op s) fx') ->
               ends_well fx (after o fx (command_loop env md' inputs))).
    { intros md' A o op Hok [a [fx' ->]]. cbn [after].
      apply (ends_well_more fx fx'). apply IH.
      now apply perform_preserves_loop_inv. }
    destruct i as [line now bk | | now]; cbn [command_loop].
    + destruct md.
      * destruct (String.eqb (lower line) "q"); [exact Hquit|].
        destruct (String.eqb (lower line) "p").
        { destruct (toggle_performs bk now s) as [op [fx' [E Hok]]].
          apply (Hgo Commands _ _ op Hok). now exists tt, fx'. }
        destruct (String.eqb (lower line) "s").
        { destruct (stop_performs s) as [b [fx' [E _]]].
          apply (Hgo Commands _ _ OpStop I). now exists b, fx'. }
        destruct (startswith (lower line) "b ").
        { destruct (bpm_command_performs env (lower line) s)
            as [E [op [Hok Hst]]].
          apply (Hgo Commands _ _ op Hok). exists tt, [].
          rewrite E in Hst |- *. cbn [state_of] in Hst. rewrite Hst.
          reflexivity. }
        destruct (String.eqb (lower line) "t").
        { destruct (get_status_performs s (inv_tempo _ (proj1 Hs)))
            as [st E].
          apply (Hgo Commands _ _ OpStatus I). exists st, [].
          cbn [perform]. rewrite E. reflexivity. }
        destruct (String.eqb (lower line) "f"); [|now apply IH].
        destruct (stop_performs s) as [b [fx' [E _]]]. rewrite E.
        cbn [after]. apply (ends_well_more fx fx').
        destruct (midi_files_of (env_listing env)); apply IH;
          now apply perform_preserves_loop_inv.
      * destruct (pick (midi_files_of (env_listing env)) (strip line))
          as [[|c f]| |e] eqn:Ep; try (now apply IH).
        { destruct (load_performs (env_disk env) (String c f) s) as [b [E _]].
          apply (Hgo Commands _ _ (OpLoad (env_disk env) (String c f)) Hdisk).
          now exists b, []. }
        destruct (pick_raises _ _ _ Ep) as [-> _].
        split; [exact Hs|]. split; [right; right; reflexivity|].
        split; [discriminate|]. exists []. symmetry. apply app_nil_r.
    + destruct md; [exact Hquit | now apply IH].
    + destruct md; [|now apply IH].
      destruct (worker_pass_performs now s) as [op [Hok E]].
      cbv zeta. apply (ends_well_more fx (effects_of (worker_pass now s))).
      apply IH. rewrite E. now apply perform_preserves_loop_inv.
Qed.

(** Inside command 'f' the loop does what [select_midi_file] does. *)
Lemma reselect_is_choose (env : environment) (inputs : list console)
      (s : MIDIPlayer) (fx : list effect) :
  command_loop env Reselect inputs s fx =
  match choose (midi_files_of (env_listing env)) inputs with
  | (Chosen EmptyString, rest) | (NoFile, rest) =>
      command_loop env Commands rest s fx
  | (Chosen f, rest) =>
      after (load_midi_file (env_disk env) f s) fx
            (command_loop env Commands rest)
  | (EndOfInput, _) => mkRun s fx EndOfFile
  | (Escapes e, _) => mkRun s fx (Uncaught e)
  end.
Proof.
  induction inputs as [|i inputs IH]; [reflexivity|].
  destruct i as [line now bk | | now]; cbn [command_loop choose].
  - destruct (pick (midi_files_of (env_listing env)) (strip line))
      as [[|c f]| |e]; [reflexivity | reflexivity | exact IH | reflexivity].
  - reflexivity.
  - exact IH.
Qed.

Lemma main_ends_well (env : environment) (audio : bool)
      (inputs : list console) :
  disk_ok (env_disk env) ->
  let r := main env audio inputs in
  how r = Quit -> midi_data (final r) <> None /\ is_playing (final r) = false.
Proof.
  intros Hdisk. unfold main.
  destruct (select_midi_file (env_listing env) inputs) as [[f | | |e] rest];
    try (cbn; discriminate).
  destruct f as [|c f]; [cbn; discriminate|].
  destruct (load_performs (env_disk env) (String c f) (init audio))
    as [b [E Hmd]].
  rewrite E. cbv zeta.
  destruct b; [|cbn; discriminate].
  assert (Hl : loop_inv (perform (OpLoad (env_disk env) (String c f))
                           (init audio))).
  { split; [|split; [|exact (Hmd eq_refl)]].
    - apply perform_preserves_inv; [exact Hdisk | apply inv_init].
    - apply perform_preserves_alive. intros H. discriminate H. }
  destruct (command_loop_ends_well env Hdisk rest Commands _ [] Hl)
    as [[_ [_ Hm]] [_ [Hq _]]].
  intros H. split; [exact Hm | exact (Hq H)].
Qed.

(** X15.  A line of digits that [str.isdigit] accepts and [int]
    refuses (a superscript two, for example) makes line 251 raise a
    [ValueError] that nothing catches.  Typed at the first menu it ends
    [main] before the player has made any call; typed at the menu of
    command 'f' it ends [main] with the player stopped. *)
Theorem menu_digit_that_is_no_number_ends_main :
  forall (env : environment) (audio : bool) (choice : string) (now : Q)
         (bk : backend) (rest : list console),
    midi_files_of (env_listing env) <> [] ->
    str_isdigit (strip choice) = true ->
    isdigit (strip choice) = false ->
    select_midi_file (env_listing env) (Typed choice now bk :: rest) =
      (Escapes ValueError, rest) /\
    main env audio (Typed choice now bk :: rest) =
      mkRun (init audio) [] (Uncaught ValueError) /\
    (forall line now' bk' s fx,
        lower line = "f"%string ->
        how (command_loop env Commands
               (Typed line now' bk' :: Typed choice now bk :: rest) s fx) =
          Uncaught ValueError /\
        is_playing
          (final (command_loop env Commands
                    (Typed line now' bk' :: Typed choice now bk :: rest)
                    s fx)) = false).
Proof.
  intros env audio choice now bk rest Hfiles Hd Hn.
  assert (Hpick : pick (midi_files_of (env_listing env)) (strip choice) =
                  PickRaises ValueError).
  { unfold pick. rewrite Hd, Hn. reflexivity. }
  assert (Hsel : select_midi_file (env_listing env)
                   (Typed choice now bk :: rest) = (Escapes ValueError, rest)).
  { unfold select_midi_file.
    destruct (midi_files_of (env_listing env)) as [|g l]; [congruence|].
    cbn [choose]. rewrite Hpick. reflexivity. }
  split; [exact Hsel|]. split.
  - unfold main. rewrite Hsel. reflexivity.
  - intros line now' bk' s fx Hline.
    destruct (stop_performs s) as [b [fx' [E Hp]]].
    cbn [command_loop]. rewrite Hline.
    cbn [String.eqb Ascii.eqb Bool.eqb startswith andb].
    rewrite E. cbn [after].
    destruct (midi_files_of (env_listing env)) as [|g l]; [congruence|].
    cbn [command_loop]. rewrite Hpick. cbn [how final].
    split; [reflexivity | exact Hp].
Qed.

Lemma menu_digit_that_is_no_number_ends_main_witness :
  main sample_env true [Typed superscript_two 0 Plays; Typed "q" 1 Plays] =
    mkRun (init true) [] (Uncaught ValueError).
Proof.
  exact (proj1 (proj2 (menu_digit_that_is_no_number_ends_main sample_env true
                         superscript_two 0 Plays [Typed "q"%string 1 Plays]
                         ltac:(discriminate) eq_refl eq_refl))).
Defined.

(** X16.  When [main] ends by the quit command or by a keyboard
    interrupt in its loop, a source is loaded and [is_playing] is
    false: the [stop] of lines 303 and 344 has cleared it if it was
    set. *)
Theorem quitting_stops_the_player :
  forall (env : environment) (audio : bool) (inputs : list console),
    disk_ok (env_disk env) ->
    how (main env audio inputs) = Quit ->
    midi_data (final (main env audio inputs)) <> None /\
    is_playing (final (main env audio inputs)) = false.
Proof.
  intros env audio inputs Hdisk Hq.
  exact (main_ends_well env audio inputs Hdisk Hq).
Qed.

Lemma quitting_stops_the_player_witness :
  is_playing
    (final (main sample_env true
              [Typed "only" 0 Plays; Typed "p" 1 Plays; Pass 1; Pass 2;
               Typed "P" 3 Plays; Typed "Q" 4 Plays])) = false.
Proof.
  assert (Hdisk : disk_ok (env_disk sample_env)).
  { intros p m H. injection H as <-. split; [discriminate | reflexivity]. }
  destruct (quitting_stops_the_player sample_env true
              [Typed "only" 0 Plays; Typed "p" 1 Plays; Pass 1; Pass 2;
               Typed "P" 3 Plays; Typed "Q" 4 Plays] Hdisk)
    as [_ A]; [vm_compute; reflexivity|].
  exact A.
Defined.



Lemma b_is_no_other_command (command : string) :
  startswith command "b " = true ->
  String.eqb command "q" = false /\ String.eqb command "p" = false /\
  String.eqb command "s" = false.
Proof.
  destruct command as [|c [|d r]]; cbn [startswith]; intros H;
    [discriminate H | rewrite andb_false_r in H; discriminate H |].
  apply andb_true_iff in H. destruct H as [H _].
  apply Ascii.eqb_eq in H. subst c. repeat split; reflexivity.
Qed.

(** X18.  Command 'b' followed by a tempo never ends the loop and makes
    no call.  When the tempo reads as a positive number it becomes
    [current_bpm] and nothing else changes, also during playback; when
    it reads as zero or a negative number, or does not read as a number,
    the player is left exactly as it was: the [ValueError] of [set_bpm]
    is caught by the loop. *)
Theorem b_command_sets_or_ignores :
  forall (env : environment) (line : string) (now : Q) (bk : backend)
         (rest : list console) (s : MIDIPlayer) (fx : list effect),
    startswith (lower line) "b " = true ->
    exists s',
      command_loop env Commands (Typed line now bk :: rest) s fx =
        command_loop env Commands rest s' (fx ++ []) /\
      (forall bpm, env_float env (lower line) = Some bpm -> 0 < bpm ->
                   s' = set_current_bpm bpm s) /\
      (forall bpm, env_float env (lower line) = Some bpm -> bpm <= 0 ->
                   s' = s) /\
      (env_float env (lower line) = None -> s' = s).
Proof.
  intros env line now bk rest s fx Hb.
  destruct (b_is_no_other_command _ Hb) as [Hq [Hp Hs]].
  cbn [command_loop]. rewrite Hq, Hp, Hs, Hb.
  destruct (bpm_command_performs env (lower line) s) as [E _].
  rewrite E. cbn [after]. eexists. split; [reflexivity|].
  destruct (env_float env (lower line)) as [b|]; repeat split;
    try discriminate.
  - intros bpm [= <-] Hpos.
    destruct (Qle_bool b 0) eqn:Hle; [|reflexivity].
    apply Qle_bool_iff in Hle. exfalso. exact (Qlt_not_le _ _ Hpos Hle).
  - intros bpm [= <-] Hle. apply Qle_bool_iff in Hle. rewrite Hle.
    reflexivity.
Qed.

Lemma b_command_sets_or_ignores_witness :
  exists s',
    command_loop sample_env Commands [Typed "B -5" 0 Plays] started [] =
      command_loop sample_env Commands [] s' ([] ++ []) /\
    s' = started.
Proof.
  destruct (b_command_sets_or_ignores sample_env "B -5" 0 Plays [] started
              [] eq_refl) as [s' [E [_ [H _]]]].
  exists s'. split; [exact E|].
  apply (H (-5)); [reflexivity | discriminate].
Defined.

Lemma load_keeps_playing (disk : string -> file) (f : string)
      (s : MIDIPlayer) :
  exists b s',
    load_midi_file disk f s = Returns b s' [] /\
    is_playing s' = is_playing s.
Proof.
  open_player s. run_py.
  destruct (disk f) as [| |m]; run_py;
    try (do 2 eexists; split; reflexivity).
  destruct (get_tempo_changes m); run_py;
    (do 2 eexists; split; reflexivity).
Qed.

(** X19.  Command 'f' stops the player before the menu is shown.  When
    the menu is left by a keyboard interrupt the loop goes on with the
    current file, playback stopped; when the line typed at the menu is,
    once stripped of the white space at its ends (line 247), the name
    of a listed file, that file is loaded into the stopped player and
    the loop goes on. *)
Theorem f_command_stops_then_selects :
  forall (env : environment) (line : string) (now : Q) (bk : backend)
         (rest : list console) (s : MIDIPlayer) (fx : list effect),
    lower line = "f"%string ->
    midi_files_of (env_listing env) <> [] ->
    is_playing (state_of (stop s)) = false /\
    command_loop env Commands (Typed line now bk :: CtrlC :: rest) s fx =
      command_loop env Commands rest (state_of (stop s))
        (fx ++ effects_of (stop s)) /\
    (forall typed f now' bk',
        In f (midi_files_of (env_listing env)) ->
        strip typed = f ->
        command_loop env Commands
          (Typed line now bk :: Typed typed now' bk' :: rest) s fx =
        command_loop env Commands rest
          (state_of (load_midi_file (env_disk env) f (state_of (stop s))))
          (fx ++ effects_of (stop s)) /\
        is_playing
          (state_of (load_midi_file (env_disk env) f (state_of (stop s)))) =
        false).
Proof.
  intros env line now bk rest s fx Hline Hfiles.
  destruct (stop_performs s) as [b [fx' [E Hp]]].
  change (perform OpStop s) with (state_of (stop s)) in E, Hp.
  remember (state_of (stop s)) as s1 eqn:Hs1.
  split; [exact Hp|].
  cbn [command_loop]. rewrite Hline.
  cbn [String.eqb Ascii.eqb Bool.eqb startswith andb].
  rewrite E. cbn [after effects_of].
  destruct (midi_files_of (env_listing env)) as [|g l] eqn:Hl;
    [congruence|]. split; [reflexivity|].
  intros typed f now' bk' Hin Htyped. rewrite <- Hl in *.
  destruct (midi_name_not_digits (env_listing env) f Hin) as [Hd Hne].
  assert (Hpick : pick (midi_files_of (env_listing env)) (strip typed) =
                  Picked f).
  { rewrite Htyped. unfold pick. rewrite Hd.
    assert (Hex : existsb (String.eqb f) (midi_files_of (env_listing env))
                  = true).
    { apply existsb_exists. exists f. split; [exact Hin|].
      apply String.eqb_refl. }
    rewrite Hex. reflexivity. }
  rewrite Hpick. destruct f as [|c f]; [congruence|].
  destruct (load_keeps_playing (env_disk env) (String c f) s1)
    as [b2 [s2 [E2 A]]].
  rewrite E2. cbn [after state_of]. split.
  - rewrite app_nil_r. reflexivity.
  - rewrite A. exact Hp.
Qed.

Lemma f_command_stops_then_selects_witness :
  command_loop sample_env Commands [Typed "f" 5 Plays; CtrlC] started [] =
    command_loop sample_env Commands [] (state_of (stop started))
      ([] ++ effects_of (stop started)) /\
  is_playing
    (final (command_loop sample_env Commands
              [Typed "F" 5 Plays; Typed " only.mid" 6 Plays] started [])) =
  false.
Proof.
  split.
  - exact (proj1 (proj2 (f_command_stops_then_selects sample_env "f" 5 Plays
                           [] started [] eq_refl ltac:(discriminate)))).
  - destruct (proj2 (proj2 (f_command_stops_then_selects sample_env "F" 5
                              Plays [] started [] eq_refl
                              ltac:(discriminate)))
                " only.mid"%string "only.mid"%string 6 Plays
                ltac:(left; reflexivity) eq_refl) as [E A].
    rewrite E. exact A.
Defined.

Lemma silent_step (op : operation) (s : MIDIPlayer) :
  audio_enabled s = false ->
  audio_enabled (perform op s) = false /\
  forall e, In e (calls_of op s) -> e = ThreadStart \/ e = ThreadJoin 1.
Proof.
  open_player s. cbn [audio_enabled]. intros ->.
  destruct op; cbn [calls_of]; run_py; repeat split_test;
    (split; [reflexivity|]); cbn [In]; intros e He;
    repeat match goal with
           | H : _ \/ _ |- _ => destruct H as [H | H]
           end; subst; auto; contradiction.
Qed.

(** X20.  A player whose audio system did not initialise runs silent:
    whatever operations are performed on it, in any order, the only
    calls made are the start and the join of the worker thread; no call
    reaches the mixer, and [audio_enabled] stays false. *)
Theorem silent_player_never_calls_the_mixer :
  forall (ops : list operation) (s : MIDIPlayer),
    audio_enabled s = false ->
    audio_enabled (fold_left (fun s op => perform op s) ops s) = false /\
    forall e, In e (calls_of_all ops s) ->
              e = ThreadStart \/ e = ThreadJoin 1.
Proof.
  induction ops as [|op ops IH]; intros s Hs.
  - split; [exact Hs | intros e []].
  - destruct (silent_step op s Hs) as [Hs' Hc].
    destruct (IH (perform op s) Hs') as [A B].
    cbn [fold_left calls_of_all]. split; [exact A|].
    intros e He. apply in_app_or in He.
    destruct He as [He | He]; [exact (Hc e He) | exact (B e He)].
Qed.

Lemma silent_player_never_calls_the_mixer_witness :
  calls_of_all
    [OpLoad song_disk "song.mid"; OpPlay Plays 0 0; OpBegin; OpPause 2;
     OpResume 3; OpSeek Plays 4 5; OpStop]
    (init false) =
  [ThreadStart; ThreadJoin 1; ThreadStart; ThreadJoin 1] /\
  forall e,
    In e (calls_of_all
            [OpLoad song_disk "song.mid"; OpPlay Plays 0 0; OpBegin;
             OpPause 2; OpResume 3; OpSeek Plays 4 5; OpStop]
            (init false)) ->
    e = ThreadStart \/ e = ThreadJoin 1.
Proof.
  split; [vm_compute; reflexivity|].
  exact (proj2 (silent_player_never_calls_the_mixer
                  [OpLoad song_disk "song.mid"; OpPlay Plays 0 0; OpBegin;
                   OpPause 2; OpResume 3; OpSeek Plays 4 5; OpStop]
                  (init false) eq_refl)).
Defined.

(** X21.  Only [load_midi_file] changes the source, its path and
    [original_bpm]; only [load_midi_file] and [set_bpm] change
    [current_bpm]; nothing changes [audio_enabled].  In particular
    [play], [pause], [resume], [stop], [seek], [get_status] and the
    worker leave both tempi as they are. *)
Theorem tempo_and_source_are_framed :
  forall (op : operation) (s : MIDIPlayer),
    audio_enabled (perform op s) = audio_enabled s /\
    (is_load op = false ->
     midi_data (perform op s) = midi_data s /\
     current_file_path (perform op s) = current_file_path s /\
     original_bpm (perform op s) = original_bpm s /\
     (is_set_bpm op = false ->
      current_bpm (perform op s) = current_bpm s)).
Proof.
  intros op s. open_player s.
  destruct op; cbn [is_load is_set_bpm]; run_py; repeat split_test;
    (split; [reflexivity|]); intros H; try discriminate H;
    repeat split; intros H'; try discriminate H'; reflexivity.
Qed.

Lemma tempo_and_source_are_framed_witness :
  original_bpm (perform (OpSeek Plays 4 5) (perform (OpSetBpm 60) started)) =
  120 /\
  current_bpm (perform (OpSeek Plays 4 5) (perform (OpSetBpm 60) started)) =
  60.
Proof.
  destruct (tempo_and_source_are_framed (OpSeek Plays 4 5)
              (perform (OpSetBpm 60) started))
    as [_ H].
  destruct (H eq_refl) as [_ [_ [A B]]].
  split; [rewrite A; reflexivity | rewrite (B eq_refl); reflexivity].
Defined.

(** * The note editor *)

(** ** Subsequences and filters *)

Lemma subseq_filter {A} (p : A -> bool) (l : list A) : subseq (filter p l) l.
Proof.
  induction l as [|x l IH]; [constructor|].
  cbn [filter]. destruct (p x);
    [apply subseq_take | apply subseq_skip]; exact IH.
Qed.

Lemma subseq_into_filter {A} (p : A -> bool) (s l : list A) :
  subseq s l -> Forall (fun x => p x = true) s -> subseq s (filter p l).
Proof.
  induction 1 as [|x s l _ IH|x s l _ IH]; intros Hs.
  - constructor.
  - cbn [filter]. destruct (p x); [apply subseq_skip|]; exact (IH Hs).
  - inversion Hs as [|y s' Hx Hs']; subst. cbn [filter]. rewrite Hx.
    apply subseq_take. exact (IH Hs').
Qed.

Lemma subseq_length {A} (s l : list A) :
  subseq s l -> (List.length s <= List.length l)%nat.
Proof. induction 1; cbn [List.length]; lia. Qed.

Lemma subseq_full {A} (s l : list A) :
  subseq s l -> (List.length l <= List.length s)%nat -> s = l.
Proof.
  induction 1 as [|x s l H IH|x s l H IH]; cbn [List.length]; intros Hlen.
  - reflexivity.
  - pose proof (subseq_length _ _ H). lia.
  - f_equal. apply IH. lia.
Qed.

(** The filter is the longest subsequence within [p], and the only one. *)
Lemma filter_longest {A} (p : A -> bool) (l : list A) :
  longest_within p (filter p l) l.
Proof.
  split; [apply subseq_filter|]. split.
  - apply Forall_forall. intros x Hx. apply filter_In in Hx. exact (proj2 Hx).
  - intros s' Hs' Hp. exact (subseq_into_filter p s' l Hs' Hp).
Qed.

Lemma longest_within_unique {A} (p : A -> bool) (s l : list A) :
  longest_within p s l -> s = filter p l.
Proof.
  intros [Hs [Hp Hmax]].
  pose proof (subseq_into_filter p s l Hs Hp) as H1.
  destruct (filter_longest p l) as [Hf [Hfp _]].
  pose proof (Hmax _ Hf Hfp) as H2.
  apply subseq_full; [exact H1 | exact (subseq_length _ _ H2)].
Qed.

Lemma longest_within_In {A} (p : A -> bool) (s l : list A) (x : A) :
  longest_within p s l -> (In x s <-> In x l /\ p x = true).
Proof.
  intros H. rewrite (longest_within_unique p s l H). apply filter_In.
Qed.

Lemma flat_map_filter {A B} (p : B -> bool) (f : A -> list B) (l : list A) :
  flat_map (fun a => filter p (f a)) l = filter p (List.concat (map f l)).
Proof.
  induction l as [|a l IH]; [reflexivity|].
  cbn [flat_map map List.concat]. rewrite filter_app, IH. reflexivity.
Qed.

Lemma filter_split_length {A} (p : A -> bool) (l : list A) :
  (List.length (filter p l) + List.length (filter (fun x => negb (p x)) l))%nat
  = List.length l.
Proof.
  induction l as [|x l IH]; [reflexivity|].
  cbn [filter]. destruct (p x); cbn [negb List.length]; lia.
Qed.

Lemma note_count_app (a b : list Editor.Instrument) :
  Editor.note_count (a ++ b) =
  (Editor.note_count a + Editor.note_count b)%nat.
Proof.
  unfold Editor.note_count. rewrite map_app, list_sum_app. reflexivity.
Qed.

Lemma moved_and_kept_count (low high : Z) (l : list Editor.Instrument) :
  (Editor.note_count
     (map (fun inst =>
             Editor.set_notes
               (filter (fun n => negb (Editor.within low high n))
                       (Editor.notes inst)) inst) l) +
   List.length
     (flat_map (fun inst => filter (Editor.within low high)
                                   (Editor.notes inst)) l))%nat =
  Editor.note_count l.
Proof.
  induction l as [|inst l IH]; [reflexivity|].
  unfold Editor.note_count in *.
  cbn [map flat_map Editor.notes Editor.set_notes].
  unfold list_sum in *. cbn [fold_right]. rewrite length_app.
  pose proof (filter_split_length (Editor.within low high)
                (Editor.notes inst)) as H.
  lia.
Qed.

Lemma Forall2_map_r {A B} (R : A -> B -> Prop) (f : A -> B) (l : list A) :
  (forall a, In a l -> R a (f a)) -> Forall2 R l (map f l).
Proof.
  induction l as [|a l IH]; intros H; [constructor|].
  cbn [map]. constructor.
  - apply H. left. reflexivity.
  - apply IH. intros b Hb. apply H. right. exact Hb.
Qed.

(** X22.  [change_range_to_instrument] appends one instrument, with
    the given program and not a drum kit, that holds exactly the notes
    whose pitch lies in the range, both ends included: all of them and
    no other, in the order in which the instruments and their notes
    stood.  Every other instrument, drum kits too, keeps its program,
    its drum flag and exactly its notes outside the range, in their
    order.  No note is lost or duplicated. *)
Theorem change_range_partitions_the_notes :
  forall (low high prog : Z) (instruments : list Editor.Instrument),
    exists kept moved,
      Editor.change_range_to_instrument low high prog instruments =
        kept ++ [Editor.mkInstrument prog false moved] /\
      Forall2
        (fun old new =>
           Editor.program new = Editor.program old /\
           Editor.is_drum new = Editor.is_drum old /\
           longest_within (fun n => negb (Editor.within low high n))
                          (Editor.notes new) (Editor.notes old))
        instruments kept /\
      longest_within (Editor.within low high) moved
                     (List.concat (map Editor.notes instruments)) /\
      (forall n, Editor.within low high n = true <->
                 (low <= Editor.pitch n <= high)%Z) /\
      Editor.note_count
        (Editor.change_range_to_instrument low high prog instruments) =
      Editor.note_count instruments.
Proof.
  intros low high prog instruments.
  unfold Editor.change_range_to_instrument. do 2 eexists.
  split; [reflexivity|].
  split; [|split; [|split]].
  - apply Forall2_map_r. intros inst _.
    cbn [Editor.set_notes Editor.program Editor.is_drum Editor.notes].
    split; [reflexivity|]. split; [reflexivity|]. apply filter_longest.
  - rewrite flat_map_filter. apply filter_longest.
  - intros n. unfold Editor.within.
    rewrite andb_true_iff, !Z.leb_le. reflexivity.
  - rewrite note_count_app.
    unfold Editor.note_count at 2. unfold list_sum.
    cbn [map fold_right Editor.notes]. rewrite <- plus_n_O.
    apply moved_and_kept_count.
Qed.

Lemma change_range_partitions_the_notes_witness :
  exists kept moved,
    Editor.change_range_to_instrument 60 64 24 Editor.sample_band =
      kept ++ [Editor.mkInstrument 24 false moved] /\
    map Editor.pitch moved = [60; 64; 64]%Z /\
    longest_within (Editor.within 60 64) moved
                   (List.concat (map Editor.notes Editor.sample_band)) /\
    Editor.note_count
      (Editor.change_range_to_instrument 60 64 24 Editor.sample_band) = 7%nat.
Proof.
  destruct (change_range_partitions_the_notes 60 64 24 Editor.sample_band)
    as [kept [moved [E [_ [L [_ C]]]]]].
  exists kept, moved. split; [exact E|].
  split; [|split; [exact L | exact C]].
  apply app_inj_tail in E. destruct E as [_ E]. injection E as <-.
  reflexivity.
Defined.

(** X23.  The two pitch filters differ at the ends of the range.
    [remove_notes_outside_pitch] leaves in every instrument exactly its
    notes with [min_pitch <= pitch <= max_pitch], in their order: a
    note at [min_pitch] or [max_pitch] is kept.
    [remove_notes_outside_pitch_and_instruments] leaves in an instrument
    that is listed and not a drum kit exactly its notes with
    [min_pitch < pitch < max_pitch], in their order, so a note at either
    end is removed, and empties every other instrument.  Both keep
    every instrument with its program and drum flag, in order, and
    doing either twice is the same as doing it once. *)
Theorem pitch_filters_and_their_bounds :
  forall (valid : list Z) (lo hi : Z) (instruments : list Editor.Instrument),
    let r1 := Editor.remove_notes_outside_pitch lo hi instruments in
    let r2 := Editor.remove_notes_outside_pitch_and_instruments
                valid lo hi instruments in
    Forall2
      (fun old new =>
         Editor.program new = Editor.program old /\
         Editor.is_drum new = Editor.is_drum old /\
         longest_within (Editor.within lo hi)
                        (Editor.notes new) (Editor.notes old) /\
         (forall n, In n (Editor.notes new) <->
                    In n (Editor.notes old) /\
                    (lo <= Editor.pitch n <= hi)%Z))
      instruments r1 /\
    Forall2
      (fun old new =>
         Editor.program new = Editor.program old /\
         Editor.is_drum new = Editor.is_drum old /\
         (In (Editor.program old) valid -> Editor.is_drum old = false ->
          longest_within (Editor.strictly_within lo hi)
                         (Editor.notes new) (Editor.notes old) /\
          (forall n, In n (Editor.notes new) <->
                     In n (Editor.notes old) /\
                     (lo < Editor.pitch n < hi)%Z)) /\
         (~ In (Editor.program old) valid \/ Editor.is_drum old = true ->
          Editor.notes new = []))
      instruments r2 /\
    Editor.remove_notes_outside_pitch lo hi r1 = r1 /\
    Editor.remove_notes_outside_pitch_and_instruments valid lo hi r2 = r2.
Proof.
  intros valid lo hi instruments r1 r2. subst r1 r2.
  unfold Editor.remove_notes_outside_pitch,
    Editor.remove_notes_outside_pitch_and_instruments.
  assert (Hff : forall (p : Editor.Note -> bool) l,
             filter p (filter p l) = filter p l).
  { intros p l. induction l as [|x l IH]; [reflexivity|].
    cbn [filter]. destruct (p x) eqn:E; [|exact IH].
    cbn [filter]. rewrite E, IH. reflexivity. }
  assert (Hl : forall p, Editor.listed valid p = true <-> In p valid).
  { intros p. unfold Editor.listed. rewrite existsb_exists. split.
    - intros [q [Hq Heq]]. apply Z.eqb_eq in Heq. subst q. exact Hq.
    - intros Hp. exists p. split; [exact Hp | apply Z.eqb_refl]. }
  split; [|split; [|split]].
  - apply Forall2_map_r. intros inst _.
    cbn [Editor.set_notes Editor.program Editor.is_drum Editor.notes].
    split; [reflexivity|]. split; [reflexivity|].
    split; [apply filter_longest|].
    intros n. rewrite filter_In. unfold Editor.within.
    rewrite andb_true_iff, !Z.leb_le. reflexivity.
  - apply Forall2_map_r. intros inst _.
    destruct (Editor.listed valid (Editor.program inst)) eqn:El;
      destruct (Editor.is_drum inst) eqn:Ed;
      cbn [negb orb Editor.set_notes Editor.program Editor.is_drum
           Editor.notes];
      (split; [reflexivity|]); (split; [exact Ed|]); split.
    + intros _ H. discriminate H.
    + intros _. reflexivity.
    + intros _ _. split; [apply filter_longest|].
      intros n. rewrite filter_In. unfold Editor.strictly_within.
      rewrite andb_true_iff, !Z.ltb_lt. reflexivity.
    + intros [H | H]; [|discriminate H].
      exfalso. apply H. apply Hl. exact El.
    + intros _ H. discriminate H.
    + intros _. reflexivity.
    + intros H _. apply Hl in H. congruence.
    + intros _. reflexivity.
  - rewrite map_map. apply map_ext. intros inst.
    unfold Editor.set_notes. cbn [Editor.notes Editor.program Editor.is_drum].
    rewrite Hff. reflexivity.
  - rewrite map_map. apply map_ext. intros inst.
    destruct (negb (Editor.listed valid (Editor.program inst))
              || Editor.is_drum inst) eqn:E;
      unfold Editor.set_notes;
      cbn [Editor.notes Editor.program Editor.is_drum]; rewrite E;
      [reflexivity | rewrite Hff; reflexivity].
Qed.

Lemma pitch_filters_and_their_bounds_witness :
  map (fun inst => map Editor.pitch (Editor.notes inst))
      (Editor.remove_notes_outside_pitch 64 90 Editor.sample_band) =
    [[64; 90]; [64]; [70]]%Z /\
  map (fun inst => map Editor.pitch (Editor.notes inst))
      (Editor.remove_notes_outside_pitch_and_instruments
         [40; 42]%Z 64 90 Editor.sample_band) =
    [[]; []; []] /\
  Forall2
    (fun old new =>
       longest_within (Editor.within 64 90)
                      (Editor.notes new) (Editor.notes old))
    Editor.sample_band
    (Editor.remove_notes_outside_pitch 64 90 Editor.sample_band).
Proof.
  split; [reflexivity|]. split; [reflexivity|].
  refine (Forall2_impl _ _
            (proj1 (pitch_filters_and_their_bounds [40; 42]%Z 64 90
                      Editor.sample_band))).
  intros old new [_ [_ [H _]]]. exact H.
Defined.

(** X24.  [swap_instrument] to a different program leaves no melodic
    instrument with the old program; it changes no note, no drum flag
    and not the number of instruments, and drum kits keep their
    program. *)
Theorem swap_instrument_moves_the_program :
  forall (from_program to_program : Z)
         (instruments : list Editor.Instrument),
    from_program <> to_program ->
    let r := Editor.swap_instrument from_program to_program instruments in
    (forall inst, In inst r -> Editor.is_drum inst = false ->
                  Editor.program inst <> from_program) /\
    map Editor.notes r = map Editor.notes instruments /\
    map Editor.is_drum r = map Editor.is_drum instruments /\
    (forall inst, In inst instruments -> Editor.is_drum inst = true ->
                  In inst r).
Proof.
  intros from_program to_program instruments Hne r. subst r.
  unfold Editor.swap_instrument. split; [|split; [|split]].
  - intros inst Hin Hd. apply in_map_iff in Hin.
    destruct Hin as [inst0 [<- _]].
    destruct (Editor.program inst0 =? from_program)%Z eqn:E;
      destruct (Editor.is_drum inst0) eqn:Hd0;
      cbn [negb andb Editor.program Editor.set_program Editor.is_drum] in *;
      first [ congruence
            | intros H; apply Hne; symmetry; exact H
            | apply Z.eqb_neq in E; exact E ].
  - rewrite map_map. apply map_ext. intros inst.
    destruct (_ && _); reflexivity.
  - rewrite map_map. apply map_ext. intros inst.
    destruct (_ && _); reflexivity.
  - intros inst Hin Hd. apply in_map_iff. exists inst.
    rewrite Hd, andb_false_r. split; [reflexivity | exact Hin].
Qed.

Lemma swap_instrument_moves_the_program_witness :
  map Editor.program (Editor.swap_instrument 0 40 Editor.sample_band) =
    [40; 0; 24]%Z /\
  forall inst,
    In inst (Editor.swap_instrument 40 41 Editor.sample_band) ->
    Editor.is_drum inst = false -> Editor.program inst <> 40%Z.
Proof.
  split; [reflexivity|].
  exact (proj1 (swap_instrument_moves_the_program 40 41 Editor.sample_band
                  ltac:(discriminate))).
Defined.

(** * The MIDI processors *)

Lemma int_of_inject (z : Z) : Mido.int_of (inject_Z z * 1) = z.
Proof.
  unfold Mido.int_of, inject_Z, Qmult. cbn [Qnum Qden].
  rewrite Z.mul_1_r. cbn. apply Z.quot_1_r.
Qed.

Lemma int_of_nonneg (x : Q) : 0 <= x -> (0 <= Mido.int_of x)%Z.
Proof.
  unfold Mido.int_of, Qle. destruct x as [n d]. cbn [Qnum Qden].
  rewrite Z.mul_1_r. cbn. intros H. apply Z.quot_pos; lia.
Qed.

Lemma clamp_bounds (lo hi x : Z) :
  (lo <= hi -> lo <= Mido.clamp lo hi x <= hi)%Z.
Proof. unfold Mido.clamp. lia. Qed.

Lemma filter_ticks (p : Mido.Message -> bool) (track : list Mido.Message) :
  Mido.track_ticks (filter (fun m => negb (p m)) track) =
  (Mido.track_ticks track - Mido.track_ticks (filter p track))%Z.
Proof.
  induction track as [|m track IH]; [reflexivity|].
  cbn [filter]. destruct (p m); cbn [negb Mido.track_ticks fold_right] in *;
    unfold Mido.track_ticks in *; cbn [fold_right]; lia.
Qed.

(** X25.  [clean_control_changes] saves a file of type 1, whatever the
    type of the input, with the same resolution and, track for track,
    the input track without the messages of the given controller:
    exactly the other messages, in their order.  The delta times of the
    removed messages are dropped with them: each track gets shorter by
    the ticks those messages carried, so what follows a removed message
    moves earlier unless its delta time was 0. *)
Theorem clean_control_changes_drops_ticks :
  forall (control : Z) (mid : Mido.MidiFile),
    let out := Mido.clean_control_changes control mid in
    Mido.file_type out = 1%Z /\
    Mido.ticks_per_beat out = Mido.ticks_per_beat mid /\
    Forall2
      (fun old new =>
         longest_within (fun m => negb (Mido.is_control control m)) new old /\
         (forall m, In m new <->
                    In m old /\ Mido.is_control control m = false) /\
         Mido.track_ticks new =
         (Mido.track_ticks old -
          Mido.track_ticks (filter (Mido.is_control control) old))%Z)
      (Mido.tracks mid) (Mido.tracks out).
Proof.
  intros control mid out. subst out. unfold Mido.clean_control_changes.
  cbn [Mido.file_type Mido.ticks_per_beat Mido.tracks].
  split; [reflexivity|]. split; [reflexivity|].
  apply Forall2_map_r. intros track _.
  split; [apply filter_longest|]. split; [|apply filter_ticks].
  intros m. rewrite filter_In, negb_true_iff. reflexivity.
Qed.

Lemma clean_control_changes_drops_ticks_witness :
  Mido.file_type (Mido.clean_control_changes 64 Mido.sample_file) = 1%Z /\
  map Mido.track_ticks (Mido.tracks Mido.sample_file) = [480%Z] /\
  map Mido.track_ticks
      (Mido.tracks (Mido.clean_control_changes 64 Mido.sample_file)) =
    [360%Z] /\
  Forall2
    (fun old new =>
       longest_within (fun m => negb (Mido.is_control 64 m)) new old)
    (Mido.tracks Mido.sample_file)
    (Mido.tracks (Mido.clean_control_changes 64 Mido.sample_file)).
Proof.
  destruct (clean_control_changes_drops_ticks 64 Mido.sample_file)
    as [A [_ B]].
  split; [exact A|]. split; [reflexivity|]. split; [reflexivity|].
  refine (Forall2_impl _ _ B). intros old new [H _]. exact H.
Defined.






(** A [note_on] of velocity 0 with its velocity raised to 1. *)
Lemma identity_effects_on_message (m : Mido.Message) :
  Mido.message_ok m ->
  Mido.apply_effects_to 0 1 1 m =
  match m with
  | Mido.NoteOn c n v t => Mido.NoteOn c n (Z.max 1 v) t
  | _ => m
  end.
Proof.
  destruct m; cbn [Mido.apply_effects_to Mido.message_ok Mido.time_of
                   Mido.set_time]; intros H; rewrite ?int_of_inject;
    try reflexivity.
  - rewrite Z.add_0_r. unfold Mido.clamp. f_equal; lia.
  - rewrite Z.add_0_r. unfold Mido.clamp. f_equal; lia.
Qed.

(** X27.  With no transposition, velocity scale 1 and time stretch 1,
    [apply_midi_effects] on a file of valid messages changes nothing
    but the [note_on] messages of velocity 0, whose velocity becomes 1:
    a [note_on] that stood for a note-off comes out as a sounding
    note. *)
Theorem neutral_effects_raise_silent_notes :
  forall (mid : Mido.MidiFile),
    Mido.all_messages Mido.message_ok mid ->
    Mido.apply_midi_effects 0 1 1 mid =
    Mido.mkFile (Mido.file_type mid) (Mido.ticks_per_beat mid)
      (map (map (fun m =>
                   match m with
                   | Mido.NoteOn c n v t => Mido.NoteOn c n (Z.max 1 v) t
                   | _ => m
                   end))
           (Mido.tracks mid)).
Proof.
  intros mid Hok. unfold Mido.apply_midi_effects. f_equal.
  apply map_ext_in. intros track Ht. apply map_ext_in. intros m Hm.
  apply identity_effects_on_message. exact (Hok track m Ht Hm).
Qed.

Lemma neutral_effects_raise_silent_notes_witness :
  Mido.tracks (Mido.apply_midi_effects 0 1 1 Mido.sample_file) =
  [[ Mido.OtherMessage "set_tempo" [500000%Z] 0;
     Mido.NoteOn 0 60 1 0; Mido.ControlChange 0 64 127 120;
     Mido.NoteOn 0 125 100 240; Mido.NoteOff 0 60 0 120 ]%Z].
Proof.
  rewrite (neutral_effects_raise_silent_notes Mido.sample_file).
  - reflexivity.
  - intros track m [<- | []] Hm. cbn in Hm.
    repeat (destruct Hm as [<- | Hm]; [cbn; lia|]). destruct Hm.
Defined.

Lemma reassign_spec (target : Z) (track new_track : list Mido.Message) :
  Mido.reassign target track = Some new_track ->
  (forall m, In m new_track -> Mido.channel_ok m) /\
  ((0 <= target <= 15)%Z \/ new_track = track).
Proof.
  revert new_track. induction track as [|m track IH]; intros new_track H.
  - injection H as <-. split; [intros m [] | right; reflexivity].
  - cbn [Mido.reassign] in H.
    destruct (Mido.channel_of m) as [c|] eqn:Hc.
    + destruct ((0 <=? target) && (target <=? 15))%Z eqn:Hr;
        [|discriminate H].
      apply andb_true_iff in Hr. rewrite !Z.leb_le in Hr.
      destruct (Mido.reassign target track) as [rest|]; [|discriminate H].
      injection H as <-. destruct (IH rest eq_refl) as [Hall _].
      split; [|left; exact Hr].
      intros m0 [<- | Hm0]; [|exact (Hall m0 Hm0)].
      unfold Mido.channel_ok. destruct m; cbn in *; try exact Hr;
        discriminate Hc.
    + destruct (Mido.reassign target track) as [rest|]; [|discriminate H].
      injection H as <-. destruct (IH rest eq_refl) as [Hall Hcase].
      split.
      * intros m0 [<- | Hm0]; [|exact (Hall m0 Hm0)].
        unfold Mido.channel_ok. rewrite Hc. exact I.
      * destruct Hcase as [Hr | ->]; [left; exact Hr | right; reflexivity].
Qed.

Lemma reassign_valid (target : Z) (track : list Mido.Message) :
  (0 <= target <= 15)%Z ->
  Mido.reassign target track = Some (map (Mido.set_channel target) track).
Proof.
  intros Hr. induction track as [|m track IH]; [reflexivity|].
  cbn [Mido.reassign map]. rewrite IH.
  assert (Hb : ((0 <=? target) && (target <=? 15))%Z = true)
    by (apply andb_true_iff; rewrite !Z.leb_le; exact Hr).
  rewrite Hb. destruct m; reflexivity.
Qed.

Lemma add_tracks_ok (target : Z) (file_tracks : list (list Mido.Message)) :
  forall track m, In track (Mido.add_tracks target file_tracks) ->
                  In m track -> Mido.channel_ok m.
Proof.
  induction file_tracks as [|t0 rest IH]; intros track m Ht Hm;
    [destruct Ht|].
  cbn [Mido.add_tracks] in Ht.
  destruct (Mido.reassign target t0) as [t1|] eqn:E; [|destruct Ht].
  destruct Ht as [<- | Ht]; [|exact (IH track m Ht Hm)].
  exact (proj1 (reassign_spec _ _ _ E) m Hm).
Qed.

Lemma add_tracks_valid (target : Z) (file_tracks : list (list Mido.Message)) :
  (0 <= target <= 15)%Z ->
  Mido.add_tracks target file_tracks =
  map (map (Mido.set_channel target)) file_tracks.
Proof.
  intros Hr. induction file_tracks as [|t0 rest IH]; [reflexivity|].
  cbn [Mido.add_tracks map]. rewrite (reassign_valid target t0 Hr), IH.
  reflexivity.
Qed.

Lemma combine_from_ok (disk : string -> Mido.midi_on_disk)
      (assign : option (list Z)) (midi_files : list string) :
  forall i track m,
    In track (Mido.combine_from i disk assign midi_files) ->
    In m track -> Mido.channel_ok m.
Proof.
  induction midi_files as [|f rest IH]; intros i track m Ht Hm;
    [destruct Ht|].
  cbn [Mido.combine_from] in Ht. apply in_app_or in Ht.
  destruct Ht as [Ht | Ht]; [|exact (IH (S i) track m Ht Hm)].
  destruct (disk f) as [| |mid]; try destruct Ht.
  exact (add_tracks_ok _ _ track m Ht Hm).
Qed.

(** X28.  [combine_midi_files] returns [False] and saves nothing on an
    empty list.  Otherwise it returns [True] and saves a file of type 1
    at 480 ticks per beat, whatever the resolutions of the inputs, in
    which every channel message has a channel within 0..15.  Without
    channel assignments the file at index [i] of the list goes to
    channel [i mod 16], all its tracks and messages kept in order, and a
    file that is missing or does not parse adds no track but still
    takes its index. *)
Theorem combine_midi_files_assigns_channels :
  forall (disk : string -> Mido.midi_on_disk) (assign : option (list Z)),
    Mido.combine_midi_files disk [] assign = (false, None) /\
    (forall f rest,
        exists out,
          Mido.combine_midi_files disk (f :: rest) assign =
            (true, Some out) /\
          Mido.file_type out = 1%Z /\
          Mido.ticks_per_beat out = 480%Z /\
          Mido.all_messages Mido.channel_ok out) /\
    (forall i f rest,
        Mido.combine_from i disk None (f :: rest) =
        match disk f with
        | Mido.Parses mid =>
            map (map (Mido.set_channel (Z.of_nat i mod 16)))
                (Mido.tracks mid)
        | _ => []
        end ++ Mido.combine_from (S i) disk None rest).
Proof.
  intros disk assign. split; [reflexivity|]. split.
  - intros f rest. eexists. split; [reflexivity|].
    split; [reflexivity|]. split; [reflexivity|].
    intros track m Ht Hm. cbn [Mido.tracks] in Ht.
    exact (combine_from_ok disk assign (f :: rest) 0 track m Ht Hm).
  - intros i f rest. cbn [Mido.combine_from Mido.target_channel].
    destruct (disk f) as [| |mid]; try reflexivity.
    rewrite add_tracks_valid; [reflexivity|].
    pose proof (Z.mod_pos_bound (Z.of_nat i) 16 ltac:(lia)). lia.
Qed.

Lemma combine_midi_files_assigns_channels_witness :
  exists out,
    Mido.combine_midi_files Mido.sample_disk ["a.mid"; "b.mid"; "c.mid"]%string
                            None = (true, Some out) /\
    Mido.ticks_per_beat out = 480%Z /\
    map (map Mido.channel_of) (Mido.tracks out) =
      [[None; Some 0; Some 0]; [None; Some 2; Some 2]]%Z.
Proof.
  destruct (proj1 (proj2 (combine_midi_files_assigns_channels
                            Mido.sample_disk None))
              "a.mid"%string ["b.mid"; "c.mid"]%string)
    as [out [E [_ [A _]]]].
  exists out. split; [exact E|]. split; [exact A|].
  injection E as <-. reflexivity.
Defined.

Lemma humanize_message_spec (randint : nat -> Z -> Z -> Z) (tj : Q)
      (vj : Z) (swing : Q) (tpb : Z) (h h' : Mido.humanizer)
      (m m' : Mido.Message) :
  Mido.humanize_message randint tj vj swing tpb h m = Some (m', h') ->
  Mido.humanized_ok m' /\
  Mido.is_note m' = Mido.is_note m /\
  (Mido.is_note m = false -> m' = m).
Proof.
  assert (Hswing : forall abs t, (0 <= t)%Z ->
            (0 <= (if negb (Qle_bool swing 0) && (0 <? tpb)%Z
                   then
                     if (0 <? tpb / 2)%Z &&
                        negb ((abs / (tpb / 2)) mod 2 =? 0)%Z
                     then t + Mido.int_of (swing * inject_Z tpb)
                     else t
                   else t))%Z).
  { intros abs t Ht.
    destruct (negb (Qle_bool swing 0) && (0 <? tpb)%Z) eqn:E; [|exact Ht].
    destruct ((0 <? tpb / 2)%Z && negb ((abs / (tpb / 2)) mod 2 =? 0)%Z);
      [|exact Ht].
    apply andb_true_iff in E. destruct E as [Es Et].
    apply negb_true_iff, Qle_bool_false in Es. apply Z.ltb_lt in Et.
    assert (0 <= swing * inject_Z tpb).
    { apply Qmult_le_0_compat; [apply Qlt_le_weak; exact Es|].
      unfold Qle, inject_Z. cbn. lia. }
    pose proof (int_of_nonneg _ H). lia. }
  unfold Mido.humanize_message.
  destruct m; cbn [Mido.is_note Mido.time_of].
  - destruct (Mido.jitter_ticks_of tj tpb <? 0)%Z; [discriminate|].
    destruct (vj <? 0)%Z; [discriminate|]. intros [= <- <-].
    cbn [Mido.humanized_ok Mido.is_note]. split; [|split; [reflexivity|]].
    + split; [apply clamp_bounds; lia | apply Hswing; lia].
    + discriminate.
  - destruct (Mido.jitter_ticks_of tj tpb <? 0)%Z; [discriminate|].
    intros [= <- <-]. cbn [Mido.humanized_ok Mido.is_note].
    split; [apply Hswing; lia|]. split; [reflexivity | discriminate].
  - intros [= <- <-]. repeat split.
  - intros [= <- <-]. repeat split.
  - intros [= <- <-]. repeat split.
Qed.

Lemma humanize_track_spec (randint : nat -> Z -> Z -> Z) (tj : Q)
      (vj : Z) (swing : Q) (tpb : Z) (track : list Mido.Message) :
  forall h track' k,
    Mido.humanize_track randint tj vj swing tpb h track = Some (track', k) ->
    (forall m, In m track' -> Mido.humanized_ok m) /\
    List.length track' = List.length track /\
    filter (fun m => negb (Mido.is_note m)) track' =
    filter (fun m => negb (Mido.is_note m)) track.
Proof.
  induction track as [|m track IH]; intros h track' k H.
  - injection H as <- _. split; [intros m []|]. split; reflexivity.
  - cbn [Mido.humanize_track] in H.
    destruct (Mido.humanize_message randint tj vj swing tpb h m)
      as [[m' h']|] eqn:E; [|discriminate H].
    destruct (Mido.humanize_track randint tj vj swing tpb h' track)
      as [[rest k']|] eqn:E'; [|discriminate H].
    injection H as <- _.
    destruct (humanize_message_spec _ _ _ _ _ _ _ _ _ E) as [Hok [Hn Hs]].
    destruct (IH _ _ _ E') as [Hall [Hlen Hf]].
    split; [|split].
    + intros m0 [<- | Hm0]; [exact Hok | exact (Hall m0 Hm0)].
    + cbn [List.length]. rewrite Hlen. reflexivity.
    + cbn [filter]. rewrite Hn.
      destruct (Mido.is_note m) eqn:Hm; cbn [negb]; [exact Hf|].
      rewrite (Hs eq_refl), Hf. reflexivity.
Qed.

Lemma humanize_tracks_spec (randint : nat -> Z -> Z -> Z) (tj : Q)
      (vj : Z) (swing : Q) (tpb : Z) (file_tracks : list (list Mido.Message)) :
  forall k new_tracks,
    Mido.humanize_tracks randint tj vj swing tpb k file_tracks =
      Some new_tracks ->
    (forall track m, In track new_tracks -> In m track ->
                     Mido.humanized_ok m) /\
    map (@List.length _) new_tracks = map (@List.length _) file_tracks /\
    map (filter (fun m => negb (Mido.is_note m))) new_tracks =
    map (filter (fun m => negb (Mido.is_note m))) file_tracks.
Proof.
  induction file_tracks as [|track rest IH]; intros k new_tracks H.
  - injection H as <-. split; [intros track m []|]. split; reflexivity.
  - cbn [Mido.humanize_tracks] in H.
    destruct (Mido.humanize_track randint tj vj swing tpb
                (Mido.mkHumanizer 0 k) track) as [[track' k']|] eqn:E;
      [|discriminate H].
    destruct (Mido.humanize_tracks randint tj vj swing tpb k' rest)
      as [rest'|] eqn:E'; [|discriminate H].
    injection H as <-.
    destruct (humanize_track_spec _ _ _ _ _ _ _ _ _ E) as [Hall [Hlen Hf]].
    destruct (IH _ _ E') as [Hall' [Hlen' Hf']].
    split; [|split].
    + intros t m [<- | Ht] Hm; [exact (Hall m Hm) | exact (Hall' t m Ht Hm)].
    + cbn [map]. rewrite Hlen, Hlen'. reflexivity.
    + cbn [map]. rewrite Hf, Hf'. reflexivity.
Qed.

Lemma swung_nonneg (swing : Q) (tpb abs t : Z) :
  (0 <= t)%Z ->
  (0 <= (if negb (Qle_bool swing 0) && (0 <? tpb)%Z
         then
           if (0 <? tpb / 2)%Z && negb ((abs / (tpb / 2)) mod 2 =? 0)%Z
           then t + Mido.int_of (swing * inject_Z tpb)
           else t
         else t))%Z.
Proof.
  intros Ht.
  destruct (negb (Qle_bool swing 0) && (0 <? tpb)%Z) eqn:E; [|exact Ht].
  destruct ((0 <? tpb / 2)%Z && negb ((abs / (tpb / 2)) mod 2 =? 0)%Z);
    [|exact Ht].
  apply andb_true_iff in E. destruct E as [Es Et].
  apply negb_true_iff, Qle_bool_false in Es. apply Z.ltb_lt in Et.
  assert (0 <= swing * inject_Z tpb).
  { apply Qmult_le_0_compat; [apply Qlt_le_weak; exact Es|].
    unfold Qle, inject_Z. cbn. lia. }
  pose proof (int_of_nonneg _ H). lia.
Qed.

Lemma humanize_message_from (randint : nat -> Z -> Z -> Z) (tj : Q)
      (vj : Z) (swing : Q) (tpb : Z) (h h' : Mido.humanizer)
      (m m' : Mido.Message) :
  Mido.humanize_message randint tj vj swing tpb h m = Some (m', h') ->
  Mido.humanized_from m m'.
Proof.
  unfold Mido.humanize_message.
  destruct m; cbn [Mido.humanized_from Mido.time_of].
  - destruct (Mido.jitter_ticks_of tj tpb <? 0)%Z; [discriminate|].
    destruct (vj <? 0)%Z; [discriminate|]. intros [= <- <-].
    do 2 eexists. split; [reflexivity|]. split.
    + apply clamp_bounds. lia.
    + apply swung_nonneg. lia.
  - destruct (Mido.jitter_ticks_of tj tpb <? 0)%Z; [discriminate|].
    intros [= <- <-]. eexists. split; [reflexivity|].
    apply swung_nonneg. lia.
  - intros [= <- <-]. reflexivity.
  - intros [= <- <-]. reflexivity.
  - intros [= <- <-]. reflexivity.
Qed.

Lemma humanize_track_from (randint : nat -> Z -> Z -> Z) (tj : Q)
      (vj : Z) (swing : Q) (tpb : Z) (track : list Mido.Message) :
  forall h track' k,
    Mido.humanize_track randint tj vj swing tpb h track = Some (track', k) ->
    Forall2 Mido.humanized_from track track'.
Proof.
  induction track as [|m track IH]; intros h track' k H.
  - injection H as <- _. constructor.
  - cbn [Mido.humanize_track] in H.
    destruct (Mido.humanize_message randint tj vj swing tpb h m)
      as [[m' h']|] eqn:E; [|discriminate H].
    destruct (Mido.humanize_track randint tj vj swing tpb h' track)
      as [[rest k']|] eqn:E'; [|discriminate H].
    injection H as <- _. constructor.
    + exact (humanize_message_from _ _ _ _ _ _ _ _ _ E).
    + exact (IH _ _ _ E').
Qed.

Lemma humanize_tracks_from (randint : nat -> Z -> Z -> Z) (tj : Q)
      (vj : Z) (swing : Q) (tpb : Z) (file_tracks : list (list Mido.Message)) :
  forall k new_tracks,
    Mido.humanize_tracks randint tj vj swing tpb k file_tracks =
      Some new_tracks ->
    Forall2 (Forall2 Mido.humanized_from) file_tracks new_tracks.
Proof.
  induction file_tracks as [|track rest IH]; intros k new_tracks H.
  - injection H as <-. constructor.
  - cbn [Mido.humanize_tracks] in H.
    destruct (Mido.humanize_track randint tj vj swing tpb
                (Mido.mkHumanizer 0 k) track) as [[track' k']|] eqn:E;
      [|discriminate H].
    destruct (Mido.humanize_tracks randint tj vj swing tpb k' rest)
      as [rest'|] eqn:E'; [|discriminate H].
    injection H as <-. constructor.
    + exact (humanize_track_from _ _ _ _ _ _ _ _ _ E).
    + exact (IH _ _ E').
Qed.

(** X29.  Whatever the jitter and swing parameters and whatever the
    random draws, a file that [humanize_midi] saves has the type and
    the resolution of the input and, track for track and message for
    message, the messages of the input: a message other than a note
    stands unchanged where it stood; a [note_off] differs at most by
    its delta time and a [note_on] at most by its delta time and its
    velocity, the delta time not negative and the velocity within
    1..127. *)
Theorem humanize_midi_stays_in_range :
  forall (randint : nat -> Z -> Z -> Z) (timing_jitter_ms : Q)
         (velocity_jitter : Z) (swing : Q) (mid out : Mido.MidiFile),
    Mido.humanize_midi randint timing_jitter_ms velocity_jitter swing mid =
      Some out ->
    Mido.file_type out = Mido.file_type mid /\
    Mido.ticks_per_beat out = Mido.ticks_per_beat mid /\
    Forall2 (Forall2 Mido.humanized_from) (Mido.tracks mid) (Mido.tracks out) /\
    Mido.all_messages Mido.humanized_ok out /\
    map (@List.length _) (Mido.tracks out) =
      map (@List.length _) (Mido.tracks mid) /\
    map (filter (fun m => negb (Mido.is_note m))) (Mido.tracks out) =
      map (filter (fun m => negb (Mido.is_note m))) (Mido.tracks mid).
Proof.
  intros randint tj vj swing mid out H. unfold Mido.humanize_midi in H.
  destruct (Mido.humanize_tracks randint tj vj swing
              (Mido.ticks_per_beat mid) 0 (Mido.tracks mid))
    as [new_tracks|] eqn:E; [|discriminate H].
  injection H as <-.
  destruct (humanize_tracks_spec _ _ _ _ _ _ _ _ E) as [Hall [Hlen Hf]].
  split; [reflexivity|]. split; [reflexivity|].
  split; [exact (humanize_tracks_from _ _ _ _ _ _ _ _ E)|].
  split; [exact Hall|]. split; [exact Hlen | exact Hf].
Qed.

Lemma humanize_midi_stays_in_range_witness :
  exists out,
    Mido.humanize_midi Mido.lowest 10 8 (1 # 10) Mido.sample_file = Some out /\
    Mido.tracks out =
      [[ Mido.OtherMessage "set_tempo" [500000%Z] 0;
         Mido.NoteOn 0 60 1 0; Mido.ControlChange 0 64 127 120;
         Mido.NoteOn 0 125 92 248; Mido.NoteOff 0 60 0 119 ]%Z] /\
    Forall2 (Forall2 Mido.humanized_from)
            (Mido.tracks Mido.sample_file) (Mido.tracks out).
Proof.
  eexists. split; [vm_compute; reflexivity|]. split; [reflexivity|].
  apply (humanize_midi_stays_in_range Mido.lowest 10 8 (1 # 10)
           Mido.sample_file).
  vm_compute. reflexivity.
Defined.

Lemma humanize_track_without_notes (randint : nat -> Z -> Z -> Z) (tj : Q)
      (vj : Z) (swing : Q) (tpb : Z) (track : list Mido.Message) :
  (forall m, In m track -> Mido.is_note m = false) ->
  forall h,
    Mido.humanize_track randint tj vj swing tpb h track =
    Some (track, Mido.drawn h).
Proof.
  induction track as [|m track IH]; intros Hn h; [reflexivity|].
  cbn [Mido.humanize_track].
  assert (Hm : Mido.is_note m = false) by (apply Hn; left; reflexivity).
  assert (E : Mido.humanize_message randint tj vj swing tpb h m =
              Some (m, Mido.mkHumanizer (Mido.abs_time h + Mido.time_of m)
                                        (Mido.drawn h))).
  { destruct m; try discriminate Hm; reflexivity. }
  rewrite E, IH by (intros m0 Hm0; apply Hn; right; exact Hm0).
  reflexivity.
Qed.

Lemma humanize_track_raises (randint : nat -> Z -> Z -> Z) (tj : Q)
      (vj : Z) (swing : Q) (tpb : Z) (track : list Mido.Message)
      (c n v t : Z) :
  (vj < 0 \/ Mido.jitter_ticks_of tj tpb < 0)%Z ->
  In (Mido.NoteOn c n v t) track ->
  forall h, Mido.humanize_track randint tj vj swing tpb h track = None.
Proof.
  intros Hneg. induction track as [|m track IH]; intros Hin h;
    [destruct Hin|].
  cbn [Mido.humanize_track].
  destruct (Mido.humanize_message randint tj vj swing tpb h m)
    as [[m' h']|] eqn:E; [|reflexivity].
  destruct Hin as [-> | Hin].
  - exfalso. unfold Mido.humanize_message in E.
    destruct (Mido.jitter_ticks_of tj tpb <? 0)%Z eqn:Hj;
      [discriminate E|].
    destruct (vj <? 0)%Z eqn:Hv; [discriminate E|].
    apply Z.ltb_ge in Hj, Hv. lia.
  - rewrite (IH Hin h'). reflexivity.
Qed.

(** X30.  A file without note messages is saved by [humanize_midi] as it
    is, whatever the parameters.  With a negative velocity jitter, or a
    timing jitter that comes to a negative number of ticks, a file that
    has a [note_on] is not saved at all: [random.randint] raises on the
    empty range. *)
Theorem humanize_midi_and_the_jitter_range :
  forall (randint : nat -> Z -> Z -> Z) (timing_jitter_ms : Q)
         (velocity_jitter : Z) (swing : Q) (mid : Mido.MidiFile),
    ((forall track m, In track (Mido.tracks mid) -> In m track ->
                      Mido.is_note m = false) ->
     Mido.humanize_midi randint timing_jitter_ms velocity_jitter swing mid =
       Some mid) /\
    ((velocity_jitter < 0 \/
      Mido.jitter_ticks_of timing_jitter_ms (Mido.ticks_per_beat mid) < 0)%Z ->
     (exists track c n v t,
         In track (Mido.tracks mid) /\ In (Mido.NoteOn c n v t) track) ->
     Mido.humanize_midi randint timing_jitter_ms velocity_jitter swing mid =
       None).
Proof.
  intros randint tj vj swing mid. destruct mid as [ty tpb trs].
  unfold Mido.humanize_midi.
  cbn [Mido.tracks Mido.ticks_per_beat Mido.file_type]. split.
  - intros Hn.
    assert (H : forall k,
               Mido.humanize_tracks randint tj vj swing tpb k trs = Some trs).
    { induction trs as [|track rest IH]; intros k; [reflexivity|].
      cbn [Mido.humanize_tracks].
      rewrite humanize_track_without_notes
        by (intros m Hm; apply (Hn track m); [left; reflexivity | exact Hm]).
      cbn [Mido.drawn].
      rewrite IH by (intros t m Ht Hm; apply (Hn t m); [right|]; assumption).
      reflexivity. }
    rewrite H. reflexivity.
  - intros Hneg [track [c [n [v [t [Ht Hm]]]]]].
    assert (H : forall k,
               Mido.humanize_tracks randint tj vj swing tpb k trs = None).
    { induction trs as [|t0 rest IH]; intros k; [destruct Ht|].
      cbn [Mido.humanize_tracks].
      destruct (Mido.humanize_track randint tj vj swing tpb
                  (Mido.mkHumanizer 0 k) t0) as [[t0' k']|] eqn:E;
        [|reflexivity].
      destruct Ht as [-> | Ht].
      - rewrite (humanize_track_raises _ _ _ _ _ _ c n v t Hneg Hm) in E.
        discriminate E.
      - rewrite (IH Ht k'). reflexivity. }
    rewrite H. reflexivity.
Qed.

Lemma humanize_midi_and_the_jitter_range_witness :
  Mido.humanize_midi Mido.lowest 10 (-1) 0 Mido.sample_file = None.
Proof.
  apply (proj2 (humanize_midi_and_the_jitter_range Mido.lowest 10 (-1) 0
                  Mido.sample_file)).
  - left. reflexivity.
  - exists Mido.sample_track, 0%Z, 60%Z, 0%Z, 0%Z.
    split; [left; reflexivity | right; left; reflexivity].
Defined.
